(** * Feature-flag manager: a shallow embedding of the dev-tools scripts

    The development embeds [claude/slash-commands/feature-flag-manager.js]
    (the single-project workflow, cited below as part_002) and the
    orchestration of [claude/slash-commands/bulk-feature-flag-manager.js],
    and states the properties of the specification over that embedding.

    Conventions.
    - A JavaScript string is a Rocq [string]; a character stands for one
      code unit, and the model covers code units below 256.
    - The process state (environment, file system, git working copy,
      answers to come, clock, pending external faults) is threaded
      explicitly through a small monad [M] whose outcomes distinguish a
      normal return, a thrown exception, [process.exit] and a prompt that
      never receives an answer.
    - [stdin] lists the answers to come: its first entry is the line that
      arrives while the next question is pending, as when an operator
      types at each prompt.  A line that arrives while no question is
      pending is dropped by readline and is no entry of [stdin]; input
      that is piped in at once goes through [piped_answers].
    - Everything the process does to the outside world is appended, in
      order, to [trace]. *)

From Stdlib Require Import String Ascii List ZArith Lia Bool.
From stdpp Require Import base option list sorting gmap strings pretty.

Local Open Scope string_scope.
Local Open Scope list_scope.

(** ** JavaScript string primitives *)

Module Js.

(** [WhiteSpace] and [LineTerminator] code units below 256: TAB, LF, VT,
    FF, CR, SP and NBSP. *)
Definition is_ws (c : ascii) : bool :=
  let n := nat_of_ascii c in
  ((9 <=? n)%nat && (n <=? 13)%nat) || (n =? 32)%nat || (n =? 160)%nat.

Fixpoint trimStart (s : string) : string :=
  match s with
  | EmptyString => EmptyString
  | String c r => if is_ws c then trimStart r else s
  end.

Fixpoint trimEnd (s : string) : string :=
  match s with
  | EmptyString => EmptyString
  | String c r =>
      match trimEnd r with
      | EmptyString => if is_ws c then EmptyString else String c EmptyString
      | r' => String c r'
      end
  end.

(** [String.prototype.trim] *)
Definition trim (s : string) : string := trimEnd (trimStart s).

(** [s.includes(sub)]: [sub] occurs in [s] as a contiguous substring. *)
Fixpoint includes (s sub : string) : bool :=
  String.prefix sub s ||
  match s with
  | EmptyString => false
  | String _ r => includes r sub
  end.

(** [s.endsWith(suf)] *)
Fixpoint endsWith (s suf : string) : bool :=
  String.eqb s suf ||
  match s with
  | EmptyString => false
  | String _ r => endsWith r suf
  end.

(** [s.startsWith(pre)] *)
Definition startsWith (s pre : string) : bool := String.prefix pre s.

Definition lower_ascii (c : ascii) : ascii :=
  let n := nat_of_ascii c in
  if ((65 <=? n)%nat && (n <=? 90)%nat)
     || ((192 <=? n)%nat && (n <=? 222)%nat && negb (n =? 215)%nat)
  then ascii_of_nat (n + 32) else c.

(** [String.prototype.toLowerCase] *)
Fixpoint toLowerCase (s : string) : string :=
  match s with
  | EmptyString => EmptyString
  | String c r => String (lower_ascii c) (toLowerCase r)
  end.

Definition nl : ascii := ascii_of_nat 10.

(** [s.split('\n')]: [n] newlines give [n + 1] pieces. *)
Fixpoint split_nl (s : string) : list string :=
  match s with
  | EmptyString => [EmptyString]
  | String c r =>
      if Ascii.eqb c nl then EmptyString :: split_nl r
      else match split_nl r with
           | l :: ls => String c l :: ls
           | [] => [String c EmptyString]
           end
  end.

(** [lines.join('\n')] *)
Fixpoint join_nl (ls : list string) : string :=
  match ls with
  | [] => EmptyString
  | [l] => l
  | l :: ls' => l +:+ String nl (join_nl ls')
  end.

(** JavaScript truthiness of a string value. *)
Definition truthy (s : string) : bool := negb (String.eqb s EmptyString).

End Js.

(** ** The process state *)

(** External commands run through [executeCommand], one constructor per
    command line of the script. *)
Inductive Cmd : Type :=
| GitRevParseHead                      (* git rev-parse --abbrev-ref HEAD *)
| GitStatusPorcelain                   (* git status --porcelain *)
| GitStashPush                         (* git stash push -m ... *)
| GitStashPop                          (* git stash pop *)
| GitFetchOrigin                       (* git fetch origin *)
| GitCheckout (b : string)             (* git checkout b *)
| GitPullOriginMaster                  (* git pull origin master *)
| GitCheckoutNew (b : string)          (* git checkout -b b *)
| GitAddAll                            (* git add . *)
| GitCommit (msg : string)             (* git commit -m msg *)
| GitRemote                            (* git remote *)
| GitPush (remote b : string)          (* git push -u remote b *)
| GhPrCreate (title body : string).    (* gh pr create --title .. --body .. *)

(** The questions of the interactive flow, in source order. *)
Inductive Prompt : Type :=
| AskFlagName        (* What is the feature flag name to create? *)
| AskProject         (* What project is this for? *)
| AskContinueAnyway  (* Would you like to continue anyway? (y/n) *)
| AskEnvType         (* Is this for prod or non-prod environments? *)
| AskConfirm.        (* Proceed with these settings? (y/n) *)

(** Console messages that report an outcome. *)
Inductive Msg : Type :=
| MsgFileNotFound (path : string)
| MsgAlreadyExists (flag path : string)
| MsgAddedNewStructure (flag path : string)
| MsgAdded (flag path : string)
| MsgDevRootNotSet
| MsgTemplateNotFound (path : string)
| MsgRequired (what : Prompt)
| MsgCancelled
| MsgNoFilesUpdated
| MsgPrCreated
| MsgCompleted
| MsgErrorOccurred (e : string)
| MsgCouldNotRestore (e : string)
| MsgCommandError (c : Cmd).

Inductive Event : Type :=
| EvExec (c : Cmd) (ok : bool)          (* execSync, with its success *)
| EvAsk (p : Prompt) (line : string)    (* a stdin line consumed by a prompt *)
| EvWrite (path content : string)       (* fs.writeFileSync *)
| EvRename (src dst : string)           (* fs.renameSync *)
| EvMkdir (path : string)               (* fs.mkdirSync *)
| EvChdir (path : string)               (* process.chdir *)
| EvLog (m : Msg).

(** The git working copy as far as the script can observe it: the current
    branch, the local branches, the labels of the uncommitted changes, the
    stash stack and the remotes.  Tree contents are not tracked. *)
Record Git : Type := mkGit {
  branch : string;
  branches : list string;
  changes : list string;
  stash : list (list string);
  remotes : list string
}.

(** [env_DEV_ROOT] is process.env.DEV_ROOT; [fs] is the file system, by
    absolute path; [stdin] is the answers to come, one line for each
    question that will be pending; [now] is what Date.now() returns;
    [faults] says, for each upcoming external command, whether its
    environment (network, authentication, ...) makes it fail;
    [originalBranch] and [stashCreated] are the two locals of main that its
    catch block reads; [trace] is everything done so far, oldest first. *)
(** A path of the file system holds a regular file or a directory. *)
Inductive Node : Type :=
| File (content : string)
| Dir.

Record World : Type := mkWorld {
  env_DEV_ROOT : option string;
  cwd : string;
  fs : gmap string Node;
  git : Git;
  stdin : list string;
  now : N;
  faults : list bool;
  originalBranch : option string;
  stashCreated : bool;
  rl_open : bool;
  trace : list Event
}.

Definition set_git (g : Git) (w : World) : World :=
  mkWorld (env_DEV_ROOT w) (cwd w) (fs w) g (stdin w) (now w)
    (faults w) (originalBranch w) (stashCreated w) (rl_open w) (trace w).
Definition set_stdin (l : list string) (w : World) : World :=
  mkWorld (env_DEV_ROOT w) (cwd w) (fs w) (git w) l (now w)
    (faults w) (originalBranch w) (stashCreated w) (rl_open w) (trace w).
Definition set_faults (l : list bool) (w : World) : World :=
  mkWorld (env_DEV_ROOT w) (cwd w) (fs w) (git w) (stdin w) (now w)
    l (originalBranch w) (stashCreated w) (rl_open w) (trace w).
Definition set_fs (f : gmap string Node) (w : World) : World :=
  mkWorld (env_DEV_ROOT w) (cwd w) f (git w) (stdin w) (now w)
    (faults w) (originalBranch w) (stashCreated w) (rl_open w) (trace w).
Definition set_cwd (d : string) (w : World) : World :=
  mkWorld (env_DEV_ROOT w) d (fs w) (git w) (stdin w) (now w)
    (faults w) (originalBranch w) (stashCreated w) (rl_open w) (trace w).
Definition set_originalBranch (b : option string) (w : World) : World :=
  mkWorld (env_DEV_ROOT w) (cwd w) (fs w) (git w) (stdin w) (now w)
    (faults w) b (stashCreated w) (rl_open w) (trace w).
Definition set_stashCreated (b : bool) (w : World) : World :=
  mkWorld (env_DEV_ROOT w) (cwd w) (fs w) (git w) (stdin w) (now w)
    (faults w) (originalBranch w) b (rl_open w) (trace w).
Definition set_rl_open (b : bool) (w : World) : World :=
  mkWorld (env_DEV_ROOT w) (cwd w) (fs w) (git w) (stdin w) (now w)
    (faults w) (originalBranch w) (stashCreated w) b (trace w).
Definition emit (e : Event) (w : World) : World :=
  mkWorld (env_DEV_ROOT w) (cwd w) (fs w) (git w) (stdin w) (now w)
    (faults w) (originalBranch w) (stashCreated w) (rl_open w) 
    (trace w ++ [e]).

(** ** The process monad *)

Inductive outcome (A : Type) : Type :=
| Ret (a : A)          (* normal completion *)
| Throw (e : string)   (* an exception propagating to the caller *)
| Exit (code : Z)      (* process.exit(code): the process is gone *)
| Stalled.             (* awaiting an answer that never arrives *)
Arguments Ret {A} a.
Arguments Throw {A} e.
Arguments Exit {A} code.
Arguments Stalled {A}.

Definition M (A : Type) : Type := World -> outcome A * World.

Definition ret {A} (a : A) : M A := fun w => (Ret a, w).

Definition bind {A B} (m : M A) (k : A -> M B) : M B :=
  fun w =>
    match m w with
    | (Ret a, w') => k a w'
    | (Throw e, w') => (Throw e, w')
    | (Exit c, w') => (Exit c, w')
    | (Stalled, w') => (Stalled, w')
    end.

Declare Scope proc_scope.
Delimit Scope proc_scope with proc.
Notation "'let*' x ':=' m 'in' k" := (bind m (fun x => k))
  (at level 10, x name, m at level 100, k at level 200,
   format "'[v' 'let*'  x  ':='  m  'in' '/' k ']'") : proc_scope.
Notation "m ';;' k" := (bind m (fun _ => k))
  (at level 100, k at level 200, right associativity,
   format "'[v' m  ';;' '/' k ']'") : proc_scope.
Local Open Scope proc_scope.

Definition throw {A} (e : string) : M A := fun w => (Throw e, w).

(** [process.exit(code)] ends the process at once: no [catch] and no
    [finally] block sees it. *)
Definition process_exit {A} (code : Z) : M A := fun w => (Exit code, w).

(** [try { m } catch (e) { h e }] *)
Definition try_catch {A} (m : M A) (h : string -> M A) : M A :=
  fun w =>
    match m w with
    | (Throw e, w') => h e w'
    | r => r
    end.

(** [try { m } finally { f }] *)
Definition try_finally {A} (m : M A) (f : M unit) : M A :=
  fun w =>
    match m w with
    | (Ret a, w') => (f ;; ret a) w'
    | (Throw e, w') => (f ;; throw e) w'
    | r => r
    end.

Definition get {A} (f : World -> A) : M A := fun w => (Ret (f w), w).
Definition modify (f : World -> World) : M unit := fun w => (Ret tt, f w).
Definition console (m : Msg) : M unit := modify (emit (EvLog m)).
Definition when (b : bool) (m : M unit) : M unit := if b then m else ret tt.

(** ** File system *)

Definition LF : string := String Js.nl EmptyString.

(** [path.join(a, b)] on normalised, non-empty segments. *)
Definition path_join (a b : string) : string := a +:+ "/" +:+ b.

(** A relative path is resolved against the current working directory. *)
Definition resolve (w : World) (p : string) : string :=
  if Js.startsWith p "/" then p else cwd w +:+ "/" +:+ p.

Definition is_file (w : World) (p : string) : bool :=
  match fs w !! resolve w p with Some (File _) => true | _ => false end.
Definition is_dir (w : World) (p : string) : bool :=
  match fs w !! resolve w p with Some Dir => true | _ => false end.

(** The proper ancestor directories of a path: its prefixes that end just
    before a separator. *)
Fixpoint ancestors_go (pre rest : string) : list string :=
  match rest with
  | EmptyString => []
  | String c r =>
      (if Ascii.eqb c "/" && Js.truthy pre then [pre] else [])
        ++ ancestors_go (pre +:+ String c EmptyString) r
  end.
Definition ancestors (p : string) : list string := ancestors_go EmptyString p.

Definition existsSync (p : string) : M bool :=
  get (fun w => is_file w p || is_dir w p).

Definition readFileSync (p : string) : M string :=
  fun w =>
    match fs w !! resolve w p with
    | Some (File c) => (Ret c, w)
    | Some Dir => (Throw "EISDIR", w)
    | None => (Throw "ENOENT", w)
    end.

(** A written file shows up as an uncommitted change of the working copy. *)
Definition mark_changed (p : string) (g : Git) : Git :=
  mkGit (branch g) (branches g)
        (if bool_decide (p ∈ changes g) then changes g else changes g ++ [p])
        (stash g) (remotes g).

Definition writeFileSync (p content : string) : M unit :=
  fun w =>
    if is_dir w p then (Throw "EISDIR", w)
    else (Ret tt,
          emit (EvWrite p content)
            (set_git (mark_changed p (git w))
               (set_fs (<[resolve w p := File content]> (fs w)) w))).

(** [fs.mkdirSync(p, { recursive: true })] *)
Definition mkdirSync (p : string) : M unit :=
  fun w =>
    let a := resolve w p in
    let chain := ancestors a ++ [a] in
    if existsb (fun d => match fs w !! d with Some (File _) => true | _ => false end)
               chain
    then (Throw "ENOTDIR", w)
    else (Ret tt,
          emit (EvMkdir p)
            (set_fs (foldr (fun d m => <[d := Dir]> m) (fs w) chain) w)).

Definition chdir (p : string) : M unit :=
  fun w =>
    if is_dir w p then (Ret tt, emit (EvChdir p) (set_cwd (resolve w p) w))
    else (Throw (if is_file w p then "ENOTDIR" else "ENOENT"), w).

Fixpoint strip_prefix (pre s : string) : option string :=
  match pre, s with
  | EmptyString, _ => Some s
  | String a pre', String b s' =>
      if Ascii.eqb a b then strip_prefix pre' s' else None
  | _, EmptyString => None
  end.

(** The names of the sub-directories of [d], sorted. *)
Definition subdirectories (w : World) (d : string) : list string :=
  merge_sort String.le
    (omap (fun x =>
             match strip_prefix (resolve w d +:+ "/") x with
             | Some name =>
                 if Js.truthy name && negb (Js.includes name "/")
                 then Some name else None
             | None => None
             end)
          (omap (fun kv => match kv.2 with Dir => Some kv.1 | File _ => None end)
                (map_to_list (fs w)))).

(** ** External commands *)

Definition set_branch (b : string) (g : Git) : Git :=
  mkGit b (branches g) (changes g) (stash g) (remotes g).

Definition status_line (p : string) : string := " M " +:+ p +:+ LF.

Definition unlines (ls : list string) : string :=
  fold_right (fun l acc => l +:+ LF +:+ acc) EmptyString ls.

(** What a command does to the working copy when its environment does not
    fail: [None] is a non-zero exit status, [Some (out, g)] is exit status
    zero with standard output [out]. *)
Definition git_exec (c : Cmd) (g : Git) : option (string * Git) :=
  match c with
  | GitRevParseHead => Some (branch g +:+ LF, g)
  | GitStatusPorcelain =>
      Some (fold_right (fun p acc => status_line p +:+ acc) EmptyString (changes g), g)
  | GitStashPush =>
      match changes g with
      | [] => Some (EmptyString, g)
      | ch => Some (EmptyString,
                    mkGit (branch g) (branches g) [] (ch :: stash g) (remotes g))
      end
  | GitStashPop =>
      match stash g with
      | [] => None
      | ch :: st =>
          Some (EmptyString,
                mkGit (branch g) (branches g) (ch ++ changes g) st (remotes g))
      end
  | GitFetchOrigin => Some (EmptyString, g)
  | GitCheckout b =>
      if bool_decide (b ∈ branches g) then Some (EmptyString, set_branch b g)
      else None
  | GitPullOriginMaster => Some (EmptyString, g)
  | GitCheckoutNew b =>
      if bool_decide (b ∈ branches g) then None
      else Some (EmptyString,
                 mkGit b (b :: branches g) (changes g) (stash g) (remotes g))
  | GitAddAll => Some (EmptyString, g)
  | GitCommit _ =>
      match changes g with
      | [] => None
      | _ => Some (EmptyString,
                   mkGit (branch g) (branches g) [] (stash g) (remotes g))
      end
  | GitRemote => Some (unlines (remotes g), g)
  | GitPush r _ =>
      if bool_decide (r ∈ remotes g) then Some (EmptyString, g) else None
  | GhPrCreate _ _ => Some (EmptyString, g)
  end.

(** part_002:24-37.  [execSync] throws on a non-zero exit status; the
    [catch] block reports the command and calls [process.exit(1)]. *)
Definition executeCommand (c : Cmd) : M string :=
  fun w =>
    let fault := match faults w with f :: _ => f | [] => false end in
    let w1 := set_faults (tail (faults w)) w in
    match (if fault then None else git_exec c (git w1)) with
    | Some (out, g') => (Ret out, emit (EvExec c true) (set_git g' w1))
    | None =>
        (console (MsgCommandError c) ;; process_exit 1) (emit (EvExec c false) w1)
    end.

(** part_002:40-46 *)
Definition getCurrentBranch : M (option string) :=
  try_catch
    (let* out := executeCommand GitRevParseHead in ret (Some (Js.trim out)))
    (fun _ => ret None).

(** part_002:49-56 *)
Definition hasUncommittedChanges : M bool :=
  try_catch
    (let* status := executeCommand GitStatusPorcelain in
     ret (0 <? String.length (Js.trim status))%nat)
    (fun _ => ret false).

(** ** The config mutator *)

Definition header : string := "# Feature flags for this environment".

Definition flag_line (featureFlagName : string) : string :=
  featureFlagName +:+ ": true" +:+ LF.

(** part_002:59-95 *)
Definition addFeatureFlagToFile (filePath featureFlagName : string) : M bool :=
  let* found := existsSync filePath in
  if negb found then
    console (MsgFileNotFound filePath) ;;
    ret false
  else
    let* content := readFileSync filePath in
    if Js.includes content (featureFlagName +:+ ":") then
      console (MsgAlreadyExists featureFlagName filePath) ;;
      ret false
    else if negb (Js.truthy (Js.trim content)) || negb (Js.includes content ":") then
      writeFileSync filePath (header +:+ LF +:+ flag_line featureFlagName) ;;
      console (MsgAddedNewStructure featureFlagName filePath) ;;
      ret true
    else
      let content1 := if negb (Js.endsWith content LF) then content +:+ LF else content in
      let content2 := content1 +:+ flag_line featureFlagName in
      writeFileSync filePath content2 ;;
      console (MsgAdded featureFlagName filePath) ;;
      ret true.

(** ** The single-project workflow *)

(** part_002:15-21.  A question consumes the next input line and resolves
    to it, trimmed; with no line left it never resolves. *)
Definition askQuestion (q : Prompt) : M string :=
  fun w =>
    match stdin w with
    | [] => (Stalled, w)
    | l :: rest => (Ret (Js.trim l), emit (EvAsk q l) (set_stdin rest w))
    end.

(** [a.toLowerCase() !== 'y' && a.toLowerCase() !== 'yes'] *)
Definition declined (a : string) : bool :=
  negb (String.eqb (Js.toLowerCase a) "y") &&
  negb (String.eqb (Js.toLowerCase a) "yes").

(** part_002:98-108 *)
Definition getAvailableProjects : M (list string) :=
  let applicationsDir := "v2/applications" in
  let* found := existsSync applicationsDir in
  if negb found then ret []
  else fun w =>
         if is_dir w applicationsDir
         then (Ret (subdirectories w applicationsDir), w)
         else (Throw "ENOTDIR", w).

(** part_002:187-193.  Every round of the loop takes one answer, so the
    answers to come bound the number of rounds. *)
Fixpoint askEnvType_loop (pending : list string) : M string :=
  match pending with
  | [] => fun w => (Stalled, w)
  | _ :: rest =>
      let* envType := askQuestion AskEnvType in
      if String.eqb envType "prod" || String.eqb envType "non-prod"
      then ret envType
      else askEnvType_loop rest
  end.
Definition askEnvType : M string := fun w => askEnvType_loop (stdin w) w.

(** part_002:214-220 *)
Definition envDirsOf (envType : string) : list string :=
  if String.eqb envType "prod" then ["prod"]
  else ["main"; "ondemand"; "stage"; "preprod"].

(** part_002:226.  [Date.now()] is a count of milliseconds, rendered in
    decimal by the template literal. *)
Definition branchNameOf (featureFlagName projectName envType : string) (t : N)
  : string :=
  "add-" +:+ featureFlagName +:+ "-" +:+ projectName +:+ "-" +:+ envType
         +:+ "-" +:+ pretty t.

(** part_002:231-246 *)
Fixpoint updateEnvFiles (projectPath featureFlagName : string)
    (envDirs : list string) (filesUpdated : nat) : M nat :=
  match envDirs with
  | [] => ret filesUpdated
  | env :: rest =>
      let envDir := path_join projectPath env in
      let valuesFile := path_join envDir "values.yaml" in
      let* found := existsSync envDir in
      when (negb found) (mkdirSync envDir) ;;
      let* added := addFeatureFlagToFile valuesFile featureFlagName in
      updateEnvFiles projectPath featureFlagName rest
        (if added then S filesUpdated else filesUpdated)
  end.

(** part_002:257-261 *)
Definition commitMessageOf (featureFlagName projectName envType : string)
  : string :=
  "Add " +:+ featureFlagName +:+ " feature flag for " +:+ projectName
    +:+ " in " +:+ envType +:+ " environments" +:+ LF +:+ LF
    +:+ "🤖 Generated with Claude Code" +:+ LF +:+ LF
    +:+ "Co-Authored-By: Claude <noreply@anthropic.com>".

(** part_002:269-277 *)
Definition choosePushRemote : M string :=
  try_catch
    (let* out := executeCommand GitRemote in
     let remotes := filter (fun r => Js.truthy (Js.trim r) = true) (Js.split_nl out) in
     ret (if bool_decide ("ttranupgrade" ∈ remotes) then "ttranupgrade"
          else "origin"))
    (fun _ => ret "origin").

(** part_002:283-291 *)
Definition prTitleOf (featureFlagName projectName envType : string) : string :=
  "Add " +:+ featureFlagName +:+ " feature flag for " +:+ projectName
    +:+ " (" +:+ envType +:+ ")".
Definition prBodyOf (featureFlagName projectName envType projectPath : string)
    (filesUpdated : nat) (envDirs : list string) : string :=
  "## Summary" +:+ LF
    +:+ "- Add `" +:+ featureFlagName +:+ ": true` to " +:+ envType
    +:+ " environment configurations for " +:+ projectName +:+ LF
    +:+ "- Updated " +:+ pretty filesUpdated +:+ " environment file(s)" +:+ LF
    +:+ LF
    +:+ "## Environment files updated:" +:+ LF
    +:+ Js.join_nl
          (map (fun env => "- " +:+ projectPath +:+ "/" +:+ env +:+ "/values.yaml")
               envDirs) +:+ LF
    +:+ LF
    +:+ "🤖 Generated with Claude Code".

(** part_002:302-310 and, once more, part_002:320-328: check out the
    original branch unless it is null, empty or master, then pop the stash
    if one was created. *)
Definition restoreOriginalState : M unit :=
  let* ob := get originalBranch in
  let* sc := get stashCreated in
  match ob with
  | Some b =>
      when (Js.truthy b && negb (String.eqb b "master"))
           (executeCommand (GitCheckout b) ;; ret tt)
  | None => ret tt
  end ;;
  when sc (executeCommand GitStashPop ;; ret tt).

(** part_002:118-313, the body of the [try] block. *)
Definition main_try : M unit :=
  let* devRoot := get env_DEV_ROOT in
  match devRoot with
  | None => console MsgDevRootNotSet ;; process_exit 1
  | Some devRoot =>
  if negb (Js.truthy devRoot) then console MsgDevRootNotSet ;; process_exit 1 else
  let k8sTemplatePath := path_join devRoot "k8s-template" in
  let* found := existsSync k8sTemplatePath in
  if negb found then
    console (MsgTemplateNotFound k8sTemplatePath) ;; process_exit 1
  else
  chdir k8sTemplatePath ;;
  (* Save current branch and stash changes if needed *)
  let* current := getCurrentBranch in
  modify (set_originalBranch current) ;;
  let* dirty := hasUncommittedChanges in
  when dirty (executeCommand GitStashPush ;; modify (set_stashCreated true)) ;;
  (* Step 1 *)
  let* featureFlagName := askQuestion AskFlagName in
  if negb (Js.truthy featureFlagName) then
    console (MsgRequired AskFlagName) ;; process_exit 1
  else
  (* Step 2 *)
  let* availableProjects := getAvailableProjects in
  let* projectName := askQuestion AskProject in
  if negb (Js.truthy projectName) then
    console (MsgRequired AskProject) ;; process_exit 1
  else
  let projectPath := "v2/applications/" +:+ projectName in
  let* projectFound := existsSync projectPath in
  (if negb projectFound then
     let* create := askQuestion AskContinueAnyway in
     if declined create then console MsgCancelled ;; process_exit 0
     else ret tt
   else ret tt) ;;
  (* Step 3 *)
  let* envType := askEnvType in
  let* confirm := askQuestion AskConfirm in
  if declined confirm then console MsgCancelled ;; process_exit 0 else
  (* Step 4 *)
  executeCommand GitFetchOrigin ;;
  executeCommand (GitCheckout "master") ;;
  executeCommand GitPullOriginMaster ;;
  (* Step 5 *)
  let envDirs := envDirsOf envType in
  (* Step 6 *)
  let* t := get now in
  let branchName := branchNameOf featureFlagName projectName envType t in
  executeCommand (GitCheckoutNew branchName) ;;
  (* Step 7 *)
  let* filesUpdated := updateEnvFiles projectPath featureFlagName envDirs 0 in
  if (filesUpdated =? 0)%nat then
    console MsgNoFilesUpdated ;; process_exit 1
  else
  (* Step 8 *)
  executeCommand GitAddAll ;;
  executeCommand (GitCommit (commitMessageOf featureFlagName projectName envType)) ;;
  (* Step 9 *)
  let* pushRemote := choosePushRemote in
  executeCommand (GitPush pushRemote branchName) ;;
  executeCommand
    (GhPrCreate (prTitleOf featureFlagName projectName envType)
       (prBodyOf featureFlagName projectName envType projectPath filesUpdated
          envDirs)) ;;
  console MsgPrCreated ;;
  (* Step 10 *)
  restoreOriginalState ;;
  console MsgCompleted
  end.

(** part_002:315-333, the [catch] block. *)
Definition main_catch (e : string) : M unit :=
  console (MsgErrorOccurred e) ;;
  try_catch restoreOriginalState (fun e' => console (MsgCouldNotRestore e')) ;;
  process_exit 1.

(** part_002:111-337 *)
Definition main : M unit :=
  modify (set_originalBranch None) ;;
  modify (set_stashCreated false) ;;
  try_finally (try_catch main_try main_catch) (modify (set_rl_open false)).

(** The exit status of a run, where it has one: 0 when main returns, the
    argument of [process.exit] otherwise. *)
Definition exit_status (r : outcome unit) : option Z :=
  match r with
  | Ret _ => Some 0%Z
  | Exit c => Some c
  | Throw _ => Some 1%Z
  | Stalled => None
  end.

(** ** The bulk orchestrator *)

(** bulk-feature-flag-manager.js:46-62: the arguments of a bulk run that
    passes validation. *)
Definition bulkArgs (args : list string)
  : option (string * string * string * list string) :=
  match args with
  | operation :: featureFlagName :: envType :: projects =>
      if Js.truthy operation && Js.truthy featureFlagName && Js.truthy envType
         && negb (Nat.eqb (length projects) 0)
         && bool_decide (operation ∈ ["add"; "remove"])
         && bool_decide (envType ∈ ["prod"; "non-prod"])
      then Some (operation, featureFlagName, envType, projects)
      else None
  | _ => None
  end.

(** bulk-feature-flag-manager.js:90-94: what is written to the standard
    input of the child. *)
Definition childInput (operation featureFlagName project envType : string)
  : string :=
  operation +:+ LF +:+ featureFlagName +:+ LF +:+ project +:+ LF
    +:+ envType +:+ LF +:+ "y" +:+ LF.

Definition cr : ascii := ascii_of_nat 13.

(** How readline cuts a chunk of input, by its line-ending pattern
    [\r?\n|\r(?!\n)] on code units below 256: a line ends at LF, at CR LF
    and at a CR that no LF follows.  The result is the complete lines and
    what follows the last line ending. *)
Fixpoint readline_cut (s : string) : list string * string :=
  match s with
  | EmptyString => ([], EmptyString)
  | String c r =>
      if Ascii.eqb c Js.nl then
        let (ls, rest) := readline_cut r in (EmptyString :: ls, rest)
      else if Ascii.eqb c cr then
        match r with
        | String c' r' =>
            if Ascii.eqb c' Js.nl then
              let (ls, rest) := readline_cut r' in (EmptyString :: ls, rest)
            else
              let (ls, rest) := readline_cut r in (EmptyString :: ls, rest)
        | EmptyString => ([EmptyString], EmptyString)
        end
      else
        match readline_cut r with
        | ([], rest) => ([], String c rest)
        | (l :: ls, rest) => (String c l :: ls, rest)
        end
  end.

(** The lines readline hands over for a chunk: the complete ones. *)
Definition readline_lines (input : string) : list string :=
  (readline_cut input).1.

(** The answers a script gets from an input that is in the pipe before the
    script reads it.  Readline takes such an input as one chunk and hands
    its lines over one after the other, without returning to the script
    in between; a line answers the question that is pending when it is
    handed over, and is dropped when none is.  The script asks its next
    question only once its [await] has resumed (part_002:148, 167), after
    the chunk is done: the first line answers the question pending when
    the chunk arrives, and every other line is dropped.  (What follows
    the last line ending is no line of the chunk; [childInput] ends every
    line.) *)
Definition piped_answers (input : string) : list string :=
  take 1 (readline_lines input).

(** bulk-feature-flag-manager.js:82-95: the child is a fresh run of the
    single-project script, with the environment and the working directory
    of the parent, on the same disk and checkout.  The parent writes the
    whole input and ends it at once (lines 90-95), before the child, busy
    with its first git calls, reads any of it. *)
Definition runChild (input : string) (w : World) : outcome unit * World :=
  main (set_rl_open true (set_stdin (piped_answers input) w)).

(** The exit status the parent receives with the close event of the child
    (bulk-feature-flag-manager.js:98-107).  A child that is left waiting
    for an answer when its input has ended has nothing more to do, and
    ends with status 0. *)
Definition childStatus (r : outcome unit) : Z :=
  match exit_status r with
  | Some code => code
  | None => 0%Z
  end.

(** What the parent sees after a child has ended: the disk, the checkout,
    the clock and the trace of the child, and its own process state. *)
Definition afterChild (parent child : World) : World :=
  set_rl_open (rl_open parent)
    (set_stashCreated (stashCreated parent)
       (set_originalBranch (originalBranch parent)
          (set_stdin (stdin parent) (set_cwd (cwd parent) child)))).

(** bulk-feature-flag-manager.js:73-119: one child per project, one after
    the other; the outcome of each is recorded and the loop goes on. *)
Fixpoint bulkLoop (operation featureFlagName envType : string)
    (projects : list string) (w : World) : list (outcome unit) * World :=
  match projects with
  | [] => ([], w)
  | project :: rest =>
      let (r, w') :=
        runChild (childInput operation featureFlagName project envType) w in
      let (rs, w'') :=
        bulkLoop operation featureFlagName envType rest (afterChild w w') in
      (r :: rs, w'')
  end.

(** bulk-feature-flag-manager.js:35-123: a bulk run either rejects its
    arguments or runs the loop. *)
Definition bulkMain (args : list string) (w : World)
  : option (list (outcome unit) * World) :=
  match bulkArgs args with
  | Some (operation, featureFlagName, envType, projects) =>
      Some (bulkLoop operation featureFlagName envType projects w)
  | None => None
  end.

(** The role the bulk script intends for each scripted line. *)
Inductive Role : Type :=
| RoleOperation | RoleFlagName | RoleProject | RoleEnvClass | RoleConfirmation.

Definition intendedRoles (operation featureFlagName project envType : string)
  : list (Role * string) :=
  [(RoleOperation, operation); (RoleFlagName, featureFlagName);
   (RoleProject, project); (RoleEnvClass, envType); (RoleConfirmation, "y")].

(** The role a prompt of the single-project flow stands for; the question
    about a missing project directory stands for none of them. *)
Definition roleOf (p : Prompt) : option Role :=
  match p with
  | AskFlagName => Some RoleFlagName
  | AskProject => Some RoleProject
  | AskContinueAnyway => None
  | AskEnvType => Some RoleEnvClass
  | AskConfirm => Some RoleConfirmation
  end.

(** The answers a run consumed, with the prompt that took each. *)
Fixpoint consumed (evs : list Event) : list (Prompt * string) :=
  match evs with
  | [] => []
  | EvAsk p l :: rest => (p, l) :: consumed rest
  | _ :: rest => consumed rest
  end.

(** The external commands a run issued, in order. *)
Fixpoint commands (evs : list Event) : list Cmd :=
  match evs with
  | [] => []
  | EvExec c _ :: rest => c :: commands rest
  | _ :: rest => commands rest
  end.

(** The file-system mutations of a run, in order. *)
Definition is_fs_op (e : Event) : bool :=
  match e with
  | EvWrite _ _ | EvRename _ _ | EvMkdir _ => true
  | _ => false
  end.
Definition fs_ops (evs : list Event) : list Event := List.filter is_fs_op evs.

(** ** Statements of the specification *)

(** Spec 4.3 and 6: a line declares a flag when, after its indentation, it
    starts with the flag name followed by a colon. *)
Definition line_declares (flagName line : string) : bool :=
  Js.startsWith (Js.trimStart line) (flagName +:+ ":").

(** Modelled from the spec: the Remove operation of the ConfigMutator (spec
    4.3: remove the line declaring the flag if present, skip if absent).
    The single-project script has no removal path; only the callers that
    request one (the bulk script and the removal shell script) are there. *)
Fixpoint remove_first (p : string -> bool) (ls : list string)
  : option (list string) :=
  match ls with
  | [] => None
  | l :: rest =>
      if p l then Some rest
      else match remove_first p rest with
           | Some rest' => Some (l :: rest')
           | None => None
           end
  end.

(** Modelled from the spec: Remove reads the file (a missing file has no
    line to remove), removes the first declaring line together with its
    line break, and writes the rest back; the result says whether a line
    was removed. *)
Definition removeFeatureFlagFromFile (filePath featureFlagName : string)
  : M bool :=
  let* found := existsSync filePath in
  if negb found then ret false
  else
    let* content := readFileSync filePath in
    match remove_first (line_declares featureFlagName) (Js.split_nl content) with
    | None => ret false
    | Some ls => writeFileSync filePath (Js.join_nl ls) ;; ret true
    end.

(** Spec 4.3: a write is atomic in the write-temp-then-rename sense when
    the content goes to a temporary file that is then renamed over the
    target. *)
Definition temp_then_rename (target content : string) (ops : list Event) : Prop :=
  exists tmp, tmp <> target /\ ops = [EvWrite tmp content; EvRename tmp target].

(** The world right after [fs.writeFileSync(p, content)] succeeded. *)
Definition after_write (p content : string) (w : World) : World :=
  emit (EvWrite p content)
    (set_git (mark_changed p (git w))
       (set_fs (<[resolve w p := File content]> (fs w)) w)).

(** The events a computation added to the trace of [w]. *)
Definition events_of {A} (m : M A) (w : World) : list Event :=
  drop (length (trace w)) (trace (m w).2).

(** ** Concrete worlds *)

Definition sampleGit : Git :=
  mkGit "feature-x" ["master"; "feature-x"] ["README.md"] [] ["origin"].

(** A checkout of k8s-template under /dev, on branch feature-x with one
    uncommitted change, holding the given nodes. *)
Definition sampleWorld (nodes : list (string * Node)) (input : list string)
    (fl : list bool) : World :=
  mkWorld (Some "/dev") "/home"
    (list_to_map (("/dev", Dir) :: ("/dev/k8s-template", Dir) :: nodes))
    sampleGit input 1700000000000 fl None false true [].

Definition appDir (project : string) : string :=
  "/dev/k8s-template/v2/applications/" +:+ project.
Definition valuesFile (project env : string) : string :=
  appDir project +:+ "/" +:+ env +:+ "/values.yaml".

(** No values file for svc-a/main. *)
Definition w_missing : World := sampleWorld [] [] [].

(** svc-a/stage declares MY_FEATURE_X only. *)
Definition w_substring : World :=
  sampleWorld [(valuesFile "svc-a" "stage", File ("MY_FEATURE_X: true" +:+ LF))]
    [] [].

(** svc-a/main holds a comment line and no key. *)
Definition w_comment : World :=
  sampleWorld [(valuesFile "svc-a" "main", File ("# staging values" +:+ LF))]
    [] [].

(** svc-a/main holds one key and no final newline. *)
Definition w_plain : World :=
  sampleWorld [(valuesFile "svc-a" "main", File "A: 1")] [] [].

(** Add, then Remove, of one flag on one file. *)
Definition addThenRemove (filePath featureFlagName : string) : M bool :=
  addFeatureFlagToFile filePath featureFlagName ;;
  removeFeatureFlagFromFile filePath featureFlagName.

(** ** A program logic over traces

    [runs t m Q]: started with the clock at [t], [m] extends the trace by
    some events [evs], leaves the clock alone, and its outcome and [evs]
    satisfy [Q]. *)
Definition runs {A} (t : N) (m : M A) (Q : outcome A -> list Event -> Prop)
  : Prop :=
  forall w, now w = t ->
    exists evs, trace (m w).2 = trace w ++ evs /\ now (m w).2 = t /\ Q (m w).1 evs.

(** Observers of a trace: the commands that failed, the files written,
    the branches created and pushed, the publishing commands. *)
Fixpoint failed (evs : list Event) : list Cmd :=
  match evs with
  | [] => []
  | EvExec c false :: rest => c :: failed rest
  | _ :: rest => failed rest
  end.
Fixpoint writes (evs : list Event) : list (string * string) :=
  match evs with
  | [] => []
  | EvWrite p c :: rest => (p, c) :: writes rest
  | _ :: rest => writes rest
  end.
Fixpoint branches_created (cs : list Cmd) : list string :=
  match cs with
  | [] => []
  | GitCheckoutNew b :: rest => b :: branches_created rest
  | _ :: rest => branches_created rest
  end.
Fixpoint branches_pushed (cs : list Cmd) : list string :=
  match cs with
  | [] => []
  | GitPush _ b :: rest => b :: branches_pushed rest
  | _ :: rest => branches_pushed rest
  end.
Definition created (evs : list Event) : list string :=
  branches_created (commands evs).
Definition pushed (evs : list Event) : list string :=
  branches_pushed (commands evs).
Definition publishes (c : Cmd) : bool :=
  match c with
  | GitCommit _ | GitPush _ _ | GhPrCreate _ _ => true
  | _ => false
  end.
Definition published (evs : list Event) : list Cmd :=
  List.filter publishes (commands evs).

(** The shape of a trace under fail-stop commands: either no command
    failed, or the process exits with status 1 and the trace ends with the
    one failed command and the report of [executeCommand] about it. *)
Definition fail_stop {A} (r : outcome A) (evs : list Event) : Prop :=
  failed evs = [] \/
  (r = Exit 1 /\
   exists pre c,
     evs = pre ++ [EvExec c false; EvLog (MsgCommandError c)] /\ failed pre = []).

(** The directories of a project with one environment. *)
Definition projectNodes (project env : string) : list (string * Node) :=
  [("/dev/k8s-template/v2", Dir);
   ("/dev/k8s-template/v2/applications", Dir);
   (appDir project, Dir);
   (appDir project +:+ "/" +:+ env, Dir)].

Definition addToProd : list string := ["FEATURE_X"; "svc-a"; "prod"; "y"].

(** svc-a/prod holds the key A; the sixth command, git pull origin master,
    fails. *)
Definition w_pull_fails : World :=
  sampleWorld
    (projectNodes "svc-a" "prod" ++ [(valuesFile "svc-a" "prod", File ("A: 1" +:+ LF))])
    addToProd [false; false; false; false; false; true].

(** The same checkout; the last command, gh pr create, fails. *)
Definition w_pr_fails : World :=
  sampleWorld
    (projectNodes "svc-a" "prod" ++ [(valuesFile "svc-a" "prod", File ("A: 1" +:+ LF))])
    addToProd
    [false; false; false; false; false; false; false; false; false; false;
     false; true].

(** svc-a/prod already has the flag. *)
Definition w_already : World :=
  sampleWorld
    (projectNodes "svc-a" "prod"
       ++ [(valuesFile "svc-a" "prod", File ("FEATURE_X: true" +:+ LF))])
    addToProd [].

(** A checkout with the project svc-a, for a bulk run. *)
Definition w_bulk : World :=
  sampleWorld
    (projectNodes "svc-a" "main" ++ [(valuesFile "svc-a" "main", File ("A: 1" +:+ LF))])
    [] [].

Definition topicBranch : string := "add-FEATURE_X-svc-a-prod-1700000000000".

(** What holds of a run that writes no file: it publishes nothing, and if
    it created a branch it ends with exit status 1. *)
Definition no_change_post {A} (r : outcome A) (evs : list Event) : Prop :=
  writes evs = [] ->
  published evs = [] /\ (created evs <> [] -> r = Exit 1).


(** The same checkout with no failing command. *)
Definition w_success : World :=
  sampleWorld
    (projectNodes "svc-a" "prod" ++ [(valuesFile "svc-a" "prod", File ("A: 1" +:+ LF))])
    addToProd [].

(** The values path of svc-a/prod is a directory: reading it throws. *)
Definition w_throws : World :=
  sampleWorld (projectNodes "svc-a" "prod" ++ [(valuesFile "svc-a" "prod", Dir)])
    addToProd [].


(** ** Further statements *)

(** Add twice, on one file. *)
Definition addTwice (filePath featureFlagName : string) : M bool :=
  addFeatureFlagToFile filePath featureFlagName ;;
  addFeatureFlagToFile filePath featureFlagName.

(** ** A program logic over traces and process state

    The part of the world the script itself owns: the answers to come,
    the two locals of main and the clock. *)
Record Locals : Type := mkLocals {
  l_stdin : list string;
  l_original : option string;
  l_stash : bool;
  l_now : N
}.

Definition locals (w : World) : Locals :=
  mkLocals (stdin w) (originalBranch w) (stashCreated w) (now w).

(** [runsL s m Q]: started in process state [s], [m] extends the trace by
    some events [evs] and ends in a process state [s'] such that its
    outcome, [evs] and [s'] satisfy [Q]. *)
Definition runsL {A} (s : Locals) (m : M A)
    (Q : outcome A -> list Event -> Locals -> Prop) : Prop :=
  forall w, locals w = s ->
    exists evs, trace (m w).2 = trace w ++ evs /\ Q (m w).1 evs (locals (m w).2).

(** part_002:189: the test of the environment-type loop. *)
Definition isEnvType (a : string) : bool :=
  String.eqb a "prod" || String.eqb a "non-prod".

(** part_002:234-235: the values file of an environment of a project. *)
Definition valuesPathOf (projectPath env : string) : string :=
  path_join (path_join projectPath env) "values.yaml".

(** A write of the mutation step: the values file of one of the given
    environments, with a content that ends with the flag line. *)
Definition flag_write (projectPath featureFlagName : string)
    (envDirs : list string) (pc : string * string) : Prop :=
  exists env,
    env ∈ envDirs /\
    pc.1 = valuesPathOf projectPath env /\
    Js.endsWith pc.2 (flag_line featureFlagName) = true.

(** How a run may end. *)
Definition ends_post {A} (r : outcome A) (evs : list Event) (s : Locals)
  : Prop :=
  match r with
  | Ret _ | Stalled => True
  | Exit c => c = 0%Z \/ c = 1%Z
  | Throw _ => False
  end.

(** Did the run report a cancellation? *)
Fixpoint cancelled (evs : list Event) : bool :=
  match evs with
  | [] => false
  | EvLog MsgCancelled :: _ => true
  | _ :: rest => cancelled rest
  end.

(** What holds of a run that ends with exit status 0. *)
Definition exit_0_post {A} (r : outcome A) (evs : list Event) (s : Locals)
  : Prop :=
  r = Exit 0 ->
  cancelled evs = true /\
  writes evs = [] /\
  (commands evs = [GitRevParseHead; GitStatusPorcelain] \/
   commands evs = [GitRevParseHead; GitStatusPorcelain; GitStashPush]).

(** Is every file written after a topic branch was created?  [armed] says
    whether a [git checkout -b] has succeeded so far. *)
Fixpoint writes_on_branch (armed : bool) (evs : list Event) : bool :=
  match evs with
  | [] => true
  | EvExec (GitCheckoutNew _) true :: rest => writes_on_branch true rest
  | EvWrite _ _ :: rest => armed && writes_on_branch armed rest
  | _ :: rest => writes_on_branch armed rest
  end.


(** The dialogue of the single-project flow, read off part_002:147-205:
    where the flow stands, and which question with which answer may come
    next. *)
Inductive Stage : Type :=
| AtFlag | AtProject | AtContinueOrEnv | AtEnv | AtConfirm | AtEnd.

Fixpoint dialogue (s : Stage) (cs : list (Prompt * string)) : bool :=
  match cs with
  | [] => true
  | (p, l) :: rest =>
      match s, p with
      | AtFlag, AskFlagName =>
          if Js.truthy (Js.trim l) then dialogue AtProject rest
          else dialogue AtEnd rest
      | AtProject, AskProject =>
          if Js.truthy (Js.trim l) then dialogue AtContinueOrEnv rest
          else dialogue AtEnd rest
      | AtContinueOrEnv, AskContinueAnyway =>
          if declined (Js.trim l) then dialogue AtEnd rest
          else dialogue AtEnv rest
      | AtContinueOrEnv, AskEnvType | AtEnv, AskEnvType =>
          if isEnvType (Js.trim l) then dialogue AtConfirm rest
          else dialogue AtEnv rest
      | AtConfirm, AskConfirm => dialogue AtEnd rest
      | _, _ => false
      end
  end.

Definition dialogue_post {A} (r : outcome A) (evs : list Event) (s : Locals)
  : Prop :=
  dialogue AtFlag (consumed evs) = true.

(** What holds of every file a run writes. *)
Definition write_target_post {A} (r : outcome A) (evs : list Event)
    (s : Locals) : Prop :=
  forall pc, pc ∈ writes evs ->
    exists lf lp le,
      (AskFlagName, lf) ∈ consumed evs /\
      (AskProject, lp) ∈ consumed evs /\
      (AskEnvType, le) ∈ consumed evs /\
      isEnvType (Js.trim le) = true /\
      flag_write ("v2/applications/" +:+ Js.trim lp) (Js.trim lf)
        (envDirsOf (Js.trim le)) pc.

(** The commands of a run that goes through: capture (with the stash push
    when there are uncommitted changes), sync, branch, commit, push and
    pull request, then restoration (the checkout back unless the original
    branch is master, the stash pop when a stash was pushed). *)
Definition successCommands (stashed : bool) (back : option string)
    (f p e remote : string) (t : N) (filesUpdated : nat) : list Cmd :=
  [GitRevParseHead; GitStatusPorcelain]
    ++ (if stashed then [GitStashPush] else [])
    ++ [GitFetchOrigin; GitCheckout "master"; GitPullOriginMaster;
        GitCheckoutNew (branchNameOf f p e t);
        GitAddAll;
        GitCommit (commitMessageOf f p e);
        GitRemote;
        GitPush remote (branchNameOf f p e t);
        GhPrCreate (prTitleOf f p e)
          (prBodyOf f p e ("v2/applications/" +:+ p) filesUpdated (envDirsOf e))]
    ++ (match back with Some b => [GitCheckout b] | None => [] end)
    ++ (if stashed then [GitStashPop] else []).

(** part_002:138: what getCurrentBranch returns in the checkout [w]. *)
Definition startBranch (w : World) : string :=
  Js.trim (branch (git w) +:+ LF).

(** part_002:302, 320: the branch the restoration checks out, if any. *)
Definition restoreTarget (originalBranch : option string) : option string :=
  match originalBranch with
  | Some b => if Js.truthy b && negb (String.eqb b "master") then Some b else None
  | None => None
  end.

Definition success_post {A} (t : N) (r : outcome A) (evs : list Event)
    (s : Locals) : Prop :=
  (exists a : A, r = Ret a) ->
  exists stashed lf lp le remote,
    commands evs
    = successCommands stashed (restoreTarget (l_original s))
        (Js.trim lf) (Js.trim lp) (Js.trim le) remote t (length (writes evs)) /\
    (AskFlagName, lf) ∈ consumed evs /\
    (AskProject, lp) ∈ consumed evs /\
    (AskEnvType, le) ∈ consumed evs /\
    isEnvType (Js.trim le) = true /\
    (remote = "origin" \/ remote = "ttranupgrade") /\
    (0 < length (writes evs))%nat /\
    failed evs = [].

(** The script variable originalBranch holds [b]. *)
Definition original_post {A} (b : option string) (r : outcome A)
    (evs : list Event) (s : Locals) : Prop :=
  l_original s = b.

(** Does the string hold no line ending? *)
Fixpoint no_line_end (s : string) : bool :=
  match s with
  | EmptyString => true
  | String c r => negb (Ascii.eqb c Js.nl) && negb (Ascii.eqb c cr) && no_line_end r
  end.

(** What holds of a run that gets the one answer [a]: it exits with status
    1, or it is left at its second question, having run the capture
    commands and nothing else. *)
Definition one_answer_post {A} (a : string) (r : outcome A) (evs : list Event)
    (s : Locals) : Prop :=
  (r = Exit 1 \/
   (r = Stalled /\ consumed evs = [(AskFlagName, a)] /\
    (commands evs = [GitRevParseHead; GitStatusPorcelain] \/
     commands evs = [GitRevParseHead; GitStatusPorcelain; GitStashPush]))) /\
  (consumed evs = [] \/ consumed evs = [(AskFlagName, a)]) /\
  writes evs = [] /\ created evs = [] /\ published evs = [].

(** The two ways a helper built on [executeCommand] can end. *)
Definition returns_or_exits {A} (m : M A) (P : A -> Prop) (w : World) : Prop :=
  (exists a, (m w).1 = Ret a /\ P a /\ failed (events_of m w) = []) \/
  ((m w).1 = Exit 1 /\ length (failed (events_of m w)) = 1%nat).

(** The answers taken as a confirmation. *)
Definition confirmations : list string :=
  ["y"; "Y"; "yes"; "yeS"; "yEs"; "yES"; "Yes"; "YeS"; "YEs"; "YES"].

(** Does every [git stash pop] follow a [git stash push] of this run that
    exited with status 0 and was not followed by a pop yet?  [pushed] says
    whether such a push is outstanding. *)
Fixpoint pops_own_stash (pushed : bool) (evs : list Event) : bool :=
  match evs with
  | [] => true
  | EvExec GitStashPush true :: rest => pops_own_stash true rest
  | EvExec GitStashPop _ :: rest => pushed && pops_own_stash false rest
  | _ :: rest => pops_own_stash pushed rest
  end.

Definition own_stash_post {A} (r : outcome A) (evs : list Event) (s : Locals)
  : Prop :=
  pops_own_stash false evs = true.

(** No regular file lies below the directory [root]. *)
Definition no_file_below (w : World) (root : string) : Prop :=
  forall p c, fs w !! p = Some (File c) -> String.prefix (root +:+ "/") p = false.
(** * Properties *)

(** ** Strings *)

Lemma prefix_nil s : String.prefix EmptyString s = true.
Proof. by destruct s. Qed.

Lemma prefix_String a s1 b s2 :
  String.prefix (String a s1) (String b s2) = true <-> a = b /\ String.prefix s1 s2 = true.
Proof.
  cbn [String.prefix]. destruct (ascii_dec a b); split; try tauto; try discriminate.
Qed.

Lemma prefix_app_r s t : String.prefix s (s +:+ t) = true.
Proof.
  induction s as [|c r IH]; [apply prefix_nil|].
  cbn [String.append]. apply prefix_String. done.
Qed.

Lemma prefix_cons_colon c r : String.prefix ":" (String c r) = true -> c = ":"%char.
Proof. intros H. apply prefix_String in H as [H _]. done. Qed.

Lemma trimEnd_nil_inv s : Js.trimEnd s = EmptyString -> Js.trimStart s = EmptyString.
Proof.
  induction s as [|c r IH]; simpl; [done|].
  destruct (Js.trimEnd r); [|discriminate].
  destruct (Js.is_ws c); [auto|discriminate].
Qed.

Lemma trimStart_idem s : Js.trimStart (Js.trimStart s) = Js.trimStart s.
Proof.
  induction s as [|c r IH]; simpl; [done|].
  destruct (Js.is_ws c) eqn:E; [done|]. simpl. by rewrite E.
Qed.

Lemma trimStart_nil_no_colon s :
  Js.trimStart s = EmptyString -> Js.includes s ":" = false.
Proof.
  induction s as [|c r IH]; [done|].
  cbn [Js.trimStart Js.includes]. destruct (Js.is_ws c) eqn:E; [|discriminate].
  intros H. rewrite (IH H), orb_false_r.
  destruct (String.prefix ":" (String c r)) eqn:P; [|done].
  apply prefix_cons_colon in P. subst. discriminate.
Qed.

(** A blank content has no colon: the first test of part_002:77 is implied
    by the second. *)
Lemma blank_no_colon s :
  Js.truthy (Js.trim s) = false -> Js.includes s ":" = false.
Proof.
  unfold Js.truthy, Js.trim. intros H. apply negb_false_iff, String.eqb_eq in H.
  apply trimStart_nil_no_colon. apply trimEnd_nil_inv in H.
  by rewrite trimStart_idem in H.
Qed.

(** [s.includes(sub)] holds exactly when [s = a + sub + b] for some [a], [b]. *)
Lemma prefix_spec s t : String.prefix s t = true <-> exists b, t = s +:+ b.
Proof.
  revert t. induction s as [|c r IH]; intros t.
  - rewrite prefix_nil. split; [eauto|done].
  - destruct t as [|d t'].
    + split; [done|]. intros [b Hb]. discriminate.
    + rewrite prefix_String, IH. cbn [String.append]. split.
      * intros [-> [b ->]]. eauto.
      * intros [b Hb]. injection Hb as -> ->. eauto.
Qed.

Lemma includes_spec s sub :
  Js.includes s sub = true <-> exists a b, s = a +:+ sub +:+ b.
Proof.
  induction s as [|c r IH]; cbn [Js.includes].
  - rewrite orb_false_r, prefix_spec. split.
    + intros [b Hb]. exists EmptyString, b. done.
    + intros (a & b & H). destruct a; [eauto|discriminate].
  - rewrite orb_true_iff, IH, prefix_spec. split.
    + intros [[b Hb]|(a & b & ->)].
      * exists EmptyString, b. done.
      * exists (String c a), b. done.
    + intros (a & b & H). destruct a as [|d a'].
      * left. eauto.
      * right. cbn [String.append] in H. injection H as -> ->. eauto.
Qed.

Lemma append_cons x (a b : string) : String x a +:+ b = String x (a +:+ b).
Proof. reflexivity. Qed.

Lemma append_assoc (a b c : string) : (a +:+ b) +:+ c = a +:+ (b +:+ c).
Proof. induction a as [|x a IH]; [done|]. by rewrite !append_cons, IH. Qed.

Lemma append_nil_r (a : string) : a +:+ EmptyString = a.
Proof. induction a as [|x a IH]; [done|]. by rewrite append_cons, IH. Qed.

Lemma includes_app_suffix s a b :
  Js.includes s (a +:+ b) = true -> Js.includes s b = true.
Proof.
  rewrite !includes_spec. intros (x & y & ->).
  exists (x +:+ a), y. by rewrite !append_assoc.
Qed.

Lemma not_includes_colon_flag s f :
  Js.includes s ":" = false -> Js.includes s (f +:+ ":") = false.
Proof.
  intros H. destruct (Js.includes s (f +:+ ":")) eqn:E; [|done].
  apply includes_app_suffix in E. congruence.
Qed.

(** ** The config mutator, case by case *)

Ltac run_add H :=
  unfold addFeatureFlagToFile, bind, existsSync, get, is_file, is_dir,
    readFileSync;
  rewrite ?H; cbv beta iota; cbn [orb negb]; cbv beta iota; rewrite ?H;
  cbv beta iota.

Section AddFeatureFlag.
Variables (w : World) (p f : string).

Lemma add_missing :
  fs w !! resolve w p = None ->
  addFeatureFlagToFile p f w = (Ret false, emit (EvLog (MsgFileNotFound p)) w).
Proof.
  intros H. run_add H. reflexivity.
Qed.

Lemma add_directory :
  fs w !! resolve w p = Some Dir ->
  addFeatureFlagToFile p f w = (Throw "EISDIR", w).
Proof.
  intros H. run_add H. reflexivity.
Qed.

Lemma add_present c :
  fs w !! resolve w p = Some (File c) ->
  Js.includes c (f +:+ ":") = true ->
  addFeatureFlagToFile p f w = (Ret false, emit (EvLog (MsgAlreadyExists f p)) w).
Proof.
  intros H Hin. run_add H. rewrite Hin. reflexivity.
Qed.

Lemma write_file c content :
  fs w !! resolve w p = Some (File c) ->
  writeFileSync p content w = (Ret tt, after_write p content w).
Proof. intros H. unfold writeFileSync, is_dir. rewrite H. reflexivity. Qed.

Lemma add_new_structure c :
  fs w !! resolve w p = Some (File c) ->
  Js.includes c ":" = false ->
  addFeatureFlagToFile p f w =
    (Ret true,
     emit (EvLog (MsgAddedNewStructure f p))
       (after_write p (header +:+ LF +:+ flag_line f) w)).
Proof.
  intros H Hc. run_add H.
  rewrite (not_includes_colon_flag _ _ Hc), Hc, orb_true_r.
  rewrite (write_file c) by done. reflexivity.
Qed.

Lemma add_append c :
  fs w !! resolve w p = Some (File c) ->
  Js.includes c (f +:+ ":") = false ->
  Js.includes c ":" = true ->
  addFeatureFlagToFile p f w =
    (Ret true,
     emit (EvLog (MsgAdded f p))
       (after_write p
          ((if Js.endsWith c LF then c else c +:+ LF) +:+ flag_line f) w)).
Proof.
  intros H Hf Hc. run_add H. rewrite Hf, Hc.
  destruct (Js.truthy (Js.trim c)) eqn:Ht.
  - cbn [orb negb]. rewrite (write_file c) by done.
    destruct (Js.endsWith c LF); reflexivity.
  - apply blank_no_colon in Ht. congruence.
Qed.

End AddFeatureFlag.

Lemma events_of_app {A} (m : M A) w evs :
  trace (m w).2 = trace w ++ evs -> events_of m w = evs.
Proof. unfold events_of. intros ->. apply drop_app_length. Qed.

(** ** C4: Add on a missing file *)

(** C4, the claim refuted: with no values file for svc-a/main, Add returns
    false and the file is still missing afterwards; nothing is created. *)
Lemma C4_missing_file_is_not_created :
  let p := valuesFile "svc-a" "main" in
  let r := addFeatureFlagToFile p "FEATURE_X" w_missing in
  fs w_missing !! p = None /\
  ~ (r.1 = Ret true /\
     fs r.2 !! p = Some (File (header +:+ LF +:+ "FEATURE_X: true" +:+ LF))).
Proof.
  split; [reflexivity|]. intros [H _]. vm_compute in H. discriminate.
Qed.

(** C4, amended: when the config file does not exist, Add reports
    file-not-found, writes nothing (the only effect is the console
    message, so the file stays missing) and returns false: the target does
    not count as applied. *)
Theorem C4_add_on_missing_file_skips (w : World) (p f : string) :
  fs w !! resolve w p = None ->
  addFeatureFlagToFile p f w = (Ret false, emit (EvLog (MsgFileNotFound p)) w).
Proof. apply add_missing. Qed.

Lemma C4_add_on_missing_file_skips_witness :
  fs w_missing !! resolve w_missing (valuesFile "svc-a" "main") = None /\
  addFeatureFlagToFile (valuesFile "svc-a" "main") "FEATURE_X" w_missing =
    (Ret false,
     emit (EvLog (MsgFileNotFound (valuesFile "svc-a" "main"))) w_missing).
Proof.
  split; [reflexivity|].
  apply (C4_add_on_missing_file_skips w_missing (valuesFile "svc-a" "main")
           "FEATURE_X").
  reflexivity.
Defined.

(** ** C5: when Add reports the flag as already present *)

(** Add skips exactly when the content has [flag:] as a substring. *)
Lemma add_skips_iff_substring (w : World) (p f c : string) :
  fs w !! resolve w p = Some (File c) ->
  (addFeatureFlagToFile p f w).1 = Ret false <-> Js.includes c (f +:+ ":") = true.
Proof.
  intros H. split.
  - intros Hr. destruct (Js.includes c (f +:+ ":")) eqn:Hf; [done|].
    destruct (Js.includes c ":") eqn:Hc.
    + rewrite (add_append _ _ _ c) in Hr by done. discriminate.
    + rewrite (add_new_structure _ _ _ c) in Hr by done. discriminate.
  - intros Hf. by rewrite (add_present _ _ _ c).
Qed.

(** C5, the code at the failing input: the stage file declares
    MY_FEATURE_X and nothing else, no line of it declares FEATURE_X, and
    yet Add of FEATURE_X reports the flag as already existing and skips,
    leaving the file as it was. *)
Theorem C5_suffix_of_other_key_counts_as_present :
  let p := valuesFile "svc-a" "stage" in
  let content := "MY_FEATURE_X: true" +:+ LF in
  let r := addFeatureFlagToFile p "FEATURE_X" w_substring in
  fs w_substring !! p = Some (File content) /\
  forallb (fun l => negb (line_declares "FEATURE_X" l)) (Js.split_nl content) = true /\
  r.1 = Ret false /\
  events_of (addFeatureFlagToFile p "FEATURE_X") w_substring =
    [EvLog (MsgAlreadyExists "FEATURE_X" p)] /\
  fs r.2 !! p = Some (File content).
Proof. repeat split; vm_compute; reflexivity. Qed.

(** ** C6: what Add preserves *)

(** C6, the claim refuted: an existing file without the flag whose only
    line is a comment loses that line; the content is replaced. *)
Lemma C6_comment_only_content_is_replaced :
  let p := valuesFile "svc-a" "main" in
  let old := "# staging values" +:+ LF in
  let r := addFeatureFlagToFile p "FEATURE_X" w_comment in
  fs w_comment !! p = Some (File old) /\
  Js.includes old "FEATURE_X:" = false /\
  r.1 = Ret true /\
  fs r.2 !! p = Some (File (header +:+ LF +:+ "FEATURE_X: true" +:+ LF)) /\
  ~ ("# staging values" ∈ Js.split_nl (header +:+ LF +:+ "FEATURE_X: true" +:+ LF)).
Proof.
  repeat split; try (vm_compute; reflexivity).
  rewrite list_elem_of_In. vm_compute. intuition discriminate.
Qed.

(** C6, amended: for an existing file whose content has a colon and does
    not have the flag, Add returns true and rewrites only that file, to
    the old content, then a newline if the old content did not end with
    one, then the flag line; every other path is untouched. *)
Theorem C6_add_appends_to_keyed_content (w : World) (p f c : string) :
  fs w !! resolve w p = Some (File c) ->
  Js.includes c (f +:+ ":") = false ->
  Js.includes c ":" = true ->
  let r := addFeatureFlagToFile p f w in
  r.1 = Ret true /\
  fs r.2 =
    <[resolve w p :=
        File (c +:+ (if Js.endsWith c LF then EmptyString else LF)
                +:+ f +:+ ": true" +:+ LF)]> (fs w).
Proof.
  intros H Hf Hc r. subst r. rewrite (add_append _ _ _ c) by done.
  split; [done|]. cbn [snd after_write emit set_git set_fs fs].
  destruct (Js.endsWith c LF); [done|].
  unfold flag_line. by rewrite append_assoc.
Qed.

Lemma C6_add_appends_to_keyed_content_witness :
  let p := valuesFile "svc-a" "main" in
  let r := addFeatureFlagToFile p "FEATURE_X" w_plain in
  r.1 = Ret true /\
  fs r.2 =
    <[resolve w_plain p := File ("A: 1" +:+ LF +:+ "FEATURE_X" +:+ ": true" +:+ LF)]>
      (fs w_plain).
Proof.
  apply (C6_add_appends_to_keyed_content w_plain (valuesFile "svc-a" "main")
           "FEATURE_X" "A: 1"); reflexivity.
Defined.

(** ** C7: how Add writes *)

(** C7, the claim refuted: the one file-system operation of an applied Add
    is a write to the config path itself; it is not a write to a temporary
    file followed by a rename. *)
Lemma C7_write_is_direct :
  let p := valuesFile "svc-a" "main" in
  let new := "A: 1" +:+ LF +:+ "FEATURE_X: true" +:+ LF in
  fs_ops (events_of (addFeatureFlagToFile p "FEATURE_X") w_plain) = [EvWrite p new] /\
  ~ temp_then_rename p new
      (fs_ops (events_of (addFeatureFlagToFile p "FEATURE_X") w_plain)).
Proof.
  split; [vm_compute; reflexivity|].
  intros (tmp & _ & H). vm_compute in H. discriminate.
Qed.

(** C7, amended: every Add performs at most one file-system operation, a
    single [fs.writeFileSync] of the whole new content to the config path
    itself, after which the path holds that content; no temporary file is
    written and nothing is renamed. *)
Theorem C7_add_writes_in_place (w : World) (p f : string) :
  let r := addFeatureFlagToFile p f w in
  let ops := fs_ops (events_of (addFeatureFlagToFile p f) w) in
  (ops = [] /\ fs r.2 = fs w) \/
  (exists content,
      ops = [EvWrite p content] /\
      fs r.2 = <[resolve w p := File content]> (fs w)).
Proof.
  cbv zeta. destruct (fs w !! resolve w p) as [[c|]|] eqn:H.
  - destruct (Js.includes c (f +:+ ":")) eqn:Hf.
    + left. rewrite (add_present _ _ _ c) by done.
      erewrite events_of_app; [|rewrite (add_present _ _ _ c) by done; reflexivity].
      done.
    + destruct (Js.includes c ":") eqn:Hc.
      * right. eexists.
        erewrite events_of_app;
          [|rewrite (add_append _ _ _ c) by done; cbn; rewrite <- app_assoc; reflexivity].
        rewrite (add_append _ _ _ c) by done. done.
      * right. eexists.
        erewrite events_of_app;
          [|rewrite (add_new_structure _ _ _ c) by done; cbn; rewrite <- app_assoc; reflexivity].
        rewrite (add_new_structure _ _ _ c) by done. done.
  - left. rewrite add_directory by done.
    erewrite events_of_app; [|rewrite add_directory by done; symmetry; apply app_nil_r].
    done.
  - left. rewrite add_missing by done.
    erewrite events_of_app; [|rewrite add_missing by done; reflexivity].
    done.
Qed.

(** ** Lines *)

Lemma prefix_LF c r : String.prefix LF (String c r) = Ascii.eqb c Js.nl.
Proof.
  destruct (Ascii.eqb c Js.nl) eqn:E.
  - apply Ascii.eqb_eq in E as ->. apply prefix_String. split; [done|apply prefix_nil].
  - destruct (String.prefix LF (String c r)) eqn:P; [|done].
    apply prefix_String in P as [<- _]. by rewrite Ascii.eqb_refl in E.
Qed.

Lemma includes_LF_cons c r :
  Js.includes (String c r) LF = Ascii.eqb c Js.nl || Js.includes r LF.
Proof. cbn [Js.includes]. by rewrite prefix_LF. Qed.

Lemma includes_LF_app a b :
  Js.includes (a +:+ b) LF = Js.includes a LF || Js.includes b LF.
Proof.
  induction a as [|x a IH]; [by destruct b|].
  rewrite append_cons, !includes_LF_cons, IH. by rewrite orb_assoc.
Qed.

Lemma split_nl_cons c r :
  Js.split_nl (String c r) =
    if Ascii.eqb c Js.nl then EmptyString :: Js.split_nl r
    else match Js.split_nl r with
         | l :: ls => String c l :: ls
         | [] => [String c EmptyString]
         end.
Proof. reflexivity. Qed.

(** A string without a line break is one line. *)
Lemma split_nl_one_line s : Js.includes s LF = false -> Js.split_nl s = [s].
Proof.
  induction s as [|c r IH]; [done|].
  rewrite includes_LF_cons, split_nl_cons. intros [Hc Hr]%orb_false_elim.
  by rewrite Hc, (IH Hr).
Qed.

Lemma split_nl_nonempty s : Js.split_nl s <> [].
Proof.
  destruct s as [|c r]; [done|]. rewrite split_nl_cons.
  destruct (Ascii.eqb c Js.nl); [done|]. by destruct (Js.split_nl r).
Qed.

Lemma split_nl_app_LF a b :
  Js.split_nl (a +:+ LF +:+ b) = Js.split_nl a ++ Js.split_nl b.
Proof.
  induction a as [|c r IH]; [reflexivity|].
  rewrite append_cons, !split_nl_cons, IH.
  destruct (Ascii.eqb c Js.nl); [done|].
  destruct (Js.split_nl r) eqn:Hr; [by destruct (split_nl_nonempty r)|done].
Qed.

Lemma join_nl_cons l l' ls :
  Js.join_nl (l :: l' :: ls) = l +:+ String Js.nl (Js.join_nl (l' :: ls)).
Proof. reflexivity. Qed.

Lemma join_nl_snoc_nil ls :
  ls <> [] -> Js.join_nl (ls ++ [EmptyString]) = Js.join_nl ls +:+ LF.
Proof.
  induction ls as [|l [|l' ls'] IH]; intros Hne; [done|done|].
  change ((l :: l' :: ls') ++ [EmptyString])
    with (l :: (l' :: ls') ++ [EmptyString]).
  cbn [app]. rewrite !join_nl_cons.
  change (l' :: ls' ++ [EmptyString]) with ((l' :: ls') ++ [EmptyString]).
  rewrite IH by done. by rewrite append_assoc, append_cons.
Qed.

Lemma join_split_nl s : Js.join_nl (Js.split_nl s) = s.
Proof.
  induction s as [|c r IH]; [done|]. rewrite split_nl_cons.
  destruct (Ascii.eqb c Js.nl) eqn:E.
  - apply Ascii.eqb_eq in E as ->.
    destruct (Js.split_nl r) as [|l ls] eqn:Hr; [by destruct (split_nl_nonempty r)|].
    rewrite join_nl_cons, IH. done.
  - destruct (Js.split_nl r) as [|l [|l' ls]] eqn:Hr.
    + by destruct (split_nl_nonempty r).
    + cbn in IH |- *. by rewrite IH.
    + rewrite join_nl_cons in IH. rewrite join_nl_cons, append_cons. by rewrite IH.
Qed.

Lemma split_nl_head s l ls : Js.split_nl s = l :: ls -> exists b, s = l +:+ b.
Proof.
  revert l ls. induction s as [|c r IH]; intros l ls.
  - intros [= <- <-]. by exists EmptyString.
  - rewrite split_nl_cons. destruct (Ascii.eqb c Js.nl).
    + intros [= <- <-]. by exists (String c r).
    + destruct (Js.split_nl r) as [|l0 ls0] eqn:Hr;
        [by destruct (split_nl_nonempty r)|].
      intros [= <- <-]. destruct (IH _ _ eq_refl) as [b ->]. by exists b.
Qed.

(** Every line of a content is a substring of it. *)
Lemma split_nl_elem s l :
  l ∈ Js.split_nl s -> exists a b, s = a +:+ l +:+ b.
Proof.
  revert l. induction s as [|c r IH]; intros l.
  - intros ->%list_elem_of_singleton. by exists EmptyString, EmptyString.
  - rewrite split_nl_cons. destruct (Ascii.eqb c Js.nl) eqn:E.
    + intros [->|Hl]%elem_of_cons.
      * by exists EmptyString, (String c r).
      * destruct (IH _ Hl) as (a & b & ->). by exists (String c a), b.
    + destruct (Js.split_nl r) as [|l0 ls] eqn:Hr;
        [by destruct (split_nl_nonempty r)|].
      intros [->|Hl]%elem_of_cons.
      * destruct (split_nl_head _ _ _ Hr) as [b ->]. by exists EmptyString, b.
      * destruct (IH l) as (a & b & ->); [by right|]. by exists (String c a), b.
Qed.

Lemma endsWith_LF_inv s : Js.endsWith s LF = true -> exists s0, s = s0 +:+ LF.
Proof.
  induction s as [|c r IH]; [done|]. cbn [Js.endsWith].
  intros [H|H]%orb_true_iff.
  - apply String.eqb_eq in H. exists EmptyString. done.
  - destruct (IH H) as [s0 ->]. by exists (String c s0).
Qed.

Lemma remove_first_app (q : string -> bool) xs y ys :
  (forall x, x ∈ xs -> q x = false) -> q y = true ->
  remove_first q (xs ++ y :: ys) = Some (xs ++ ys).
Proof.
  intros Hxs Hy. induction xs as [|x xs IH]; cbn [app remove_first].
  - by rewrite Hy.
  - rewrite (Hxs x) by left. rewrite IH; [done|]. intros z Hz. apply Hxs. by right.
Qed.

Lemma remove_first_none (q : string -> bool) xs :
  (forall x, x ∈ xs -> q x = false) -> remove_first q xs = None.
Proof.
  induction xs as [|x xs IH]; intros H; [done|]. cbn [remove_first].
  rewrite (H x) by left. rewrite IH; [done|]. intros z Hz. apply H. by right.
Qed.

Lemma trimStart_suffix s : exists a, s = a +:+ Js.trimStart s.
Proof.
  induction s as [|c r [a IH]]; [by exists EmptyString|]. cbn [Js.trimStart].
  destruct (Js.is_ws c).
  - exists (String c a). by rewrite append_cons, <- IH.
  - by exists EmptyString.
Qed.

(** A declaring line has [flag:] as a substring. *)
Lemma line_declares_includes f l :
  line_declares f l = true -> Js.includes l (f +:+ ":") = true.
Proof.
  unfold line_declares, Js.startsWith. intros [b Hb]%prefix_spec.
  destruct (trimStart_suffix l) as [a Ha]. apply includes_spec.
  exists a, b. rewrite Ha at 1. by rewrite Hb, append_assoc.
Qed.

Lemma no_line_declares f c :
  Js.includes c (f +:+ ":") = false ->
  forall l, l ∈ Js.split_nl c -> line_declares f l = false.
Proof.
  intros Hc l Hl. destruct (line_declares f l) eqn:E; [|done].
  apply line_declares_includes, includes_spec in E as (a & b & ->).
  apply split_nl_elem in Hl as (a' & b' & ->).
  assert (Js.includes (a' +:+ (a +:+ (f +:+ ":") +:+ b) +:+ b') (f +:+ ":") = true) as H.
  { apply includes_spec. exists (a' +:+ a), (b +:+ b'). by rewrite !append_assoc. }
  congruence.
Qed.

Lemma trimStart_length s : (String.length (Js.trimStart s) <= String.length s)%nat.
Proof.
  induction s as [|c r IH]; [done|]. cbn [Js.trimStart].
  destruct (Js.is_ws c); cbn [String.length]; lia.
Qed.

(** The line Add writes declares the flag, for a flag name without leading
    white space. *)
Lemma flag_line_declares f :
  Js.trimStart f = f -> line_declares f (f +:+ ": true") = true.
Proof.
  intros Hf. unfold line_declares, Js.startsWith.
  assert (Js.trimStart (f +:+ ": true") = f +:+ ": true") as ->.
  { destruct f as [|x r]; [done|]. rewrite append_cons. cbn [Js.trimStart] in Hf |- *.
    destruct (Js.is_ws x); [|done].
    pose proof (trimStart_length r) as Hlen. rewrite Hf in Hlen.
    cbn [String.length] in Hlen. lia. }
  apply prefix_spec. exists " true". by rewrite append_assoc.
Qed.

(** ** C2: Remove after Add *)

Lemma remove_skips (w : World) (p f c : string) :
  fs w !! resolve w p = Some (File c) ->
  remove_first (line_declares f) (Js.split_nl c) = None ->
  removeFeatureFlagFromFile p f w = (Ret false, w).
Proof.
  intros H Hr. unfold removeFeatureFlagFromFile, bind, existsSync, get, is_file,
    is_dir, readFileSync.
  rewrite H. cbv beta iota. cbn [orb negb]. cbv beta iota. rewrite H.
  cbv beta iota. rewrite Hr. reflexivity.
Qed.

Lemma remove_applies (w : World) (p f c : string) ls :
  fs w !! resolve w p = Some (File c) ->
  remove_first (line_declares f) (Js.split_nl c) = Some ls ->
  removeFeatureFlagFromFile p f w = (Ret true, after_write p (Js.join_nl ls) w).
Proof.
  intros H Hr. unfold removeFeatureFlagFromFile, bind, existsSync, get, is_file,
    is_dir, readFileSync.
  rewrite H. cbv beta iota. cbn [orb negb]. cbv beta iota. rewrite H.
  cbv beta iota. rewrite Hr. rewrite (write_file _ _ c) by done. reflexivity.
Qed.

(** Removing the flag from what Add appended to a newline-terminated
    content gives the lines of that content back. *)
Lemma remove_added_line (f c : string) :
  Js.includes c (f +:+ ":") = false ->
  Js.endsWith c LF = true ->
  Js.includes f LF = false ->
  Js.trimStart f = f ->
  remove_first (line_declares f) (Js.split_nl (c +:+ flag_line f))
  = Some (Js.split_nl c).
Proof.
  intros Hc He Hf Ht. destruct (endsWith_LF_inv _ He) as [c0 ->].
  assert (Js.split_nl (c0 +:+ LF) = Js.split_nl c0 ++ [EmptyString]) as Hsplit.
  { rewrite <- (append_nil_r LF) at 1. apply split_nl_app_LF. }
  assert ((c0 +:+ LF) +:+ flag_line f
          = c0 +:+ LF +:+ ((f +:+ ": true") +:+ LF +:+ EmptyString)) as ->.
  { unfold flag_line. by rewrite !append_assoc, append_nil_r. }
  rewrite !split_nl_app_LF, Hsplit.
  rewrite (split_nl_one_line (f +:+ ": true"))
    by (rewrite includes_LF_app, Hf; reflexivity).
  apply remove_first_app; [|by apply flag_line_declares].
  intros x Hx. apply (no_line_declares f (c0 +:+ LF) Hc).
  rewrite Hsplit. apply elem_of_app. by left.
Qed.

(** C2, the claim refuted: svc-a/main holds the key A and no final newline
    (so Add appends, it creates no header); after Add and then Remove of
    FEATURE_X the file ends with a newline it did not have before. *)
Lemma C2_remove_after_add_keeps_the_newline :
  let p := valuesFile "svc-a" "main" in
  let r := addThenRemove p "FEATURE_X" w_plain in
  fs w_plain !! p = Some (File "A: 1") /\
  Js.includes "A: 1" ":" = true /\
  r.1 = Ret true /\
  fs r.2 !! p = Some (File ("A: 1" +:+ LF)) /\
  fs r.2 !! p <> fs w_plain !! p.
Proof.
  repeat split; try (vm_compute; reflexivity).
  vm_compute. discriminate.
Qed.

(** C2, amended: for a file whose content has a colon, does not have the
    flag and ends with a newline, and a flag name without a line break and
    without leading white space, Remove after Add succeeds and leaves the
    file system as it was before the Add; on the file as it was, where no
    line declares the flag, Remove is a skip that changes nothing. *)
Theorem C2_remove_after_add_restores (w : World) (p f c : string) :
  fs w !! resolve w p = Some (File c) ->
  Js.includes c (f +:+ ":") = false ->
  Js.includes c ":" = true ->
  Js.endsWith c LF = true ->
  Js.includes f LF = false ->
  Js.trimStart f = f ->
  let r := addThenRemove p f w in
  r.1 = Ret true /\ fs r.2 = fs w /\
  removeFeatureFlagFromFile p f w = (Ret false, w).
Proof.
  intros H Hf Hc He Hnl Ht r. subst r. unfold addThenRemove, bind.
  rewrite (add_append _ _ _ c) by done. rewrite He.
  set (w1 := emit _ _).
  assert (fs w1 !! resolve w1 p = Some (File (c +:+ flag_line f))) as H1.
  { subst w1. cbn. apply lookup_insert_eq. }
  rewrite (remove_applies w1 p f _ _ H1 (remove_added_line f c Hf He Hnl Ht)).
  rewrite join_split_nl. repeat split.
  - subst w1. cbn. rewrite insert_insert_eq. by apply insert_id.
  - apply (remove_skips w p f c H). apply remove_first_none.
    by apply no_line_declares.
Qed.

Lemma C2_remove_after_add_restores_witness :
  let w := sampleWorld [(valuesFile "svc-a" "main", File ("A: 1" +:+ LF))] [] [] in
  let p := valuesFile "svc-a" "main" in
  let r := addThenRemove p "FEATURE_X" w in
  r.1 = Ret true /\ fs r.2 = fs w /\
  removeFeatureFlagFromFile p "FEATURE_X" w = (Ret false, w).
Proof.
  apply (C2_remove_after_add_restores
           (sampleWorld [(valuesFile "svc-a" "main", File ("A: 1" +:+ LF))] [] [])
           (valuesFile "svc-a" "main") "FEATURE_X" ("A: 1" +:+ LF));
    reflexivity.
Defined.

(** ** The program logic *)

Ltac runs_nil := exists []; rewrite app_nil_r; cbn; eauto.

Section Logic.
Context {A : Type} (t : N).
Implicit Types Q : outcome A -> list Event -> Prop.

Lemma runs_conseq (m : M A) Q Q' :
  runs t m Q -> (forall r evs, Q r evs -> Q' r evs) -> runs t m Q'.
Proof.
  intros Hm HQ w Hw. destruct (Hm w Hw) as (evs & Htr & Hnow & HQe). eauto.
Qed.

Lemma runs_ret (a : A) Q : Q (Ret a) [] -> runs t (ret a) Q.
Proof. intros HQ w Hw. runs_nil. Qed.

Lemma runs_throw e Q : Q (Throw e) [] -> runs t (throw e) Q.
Proof. intros HQ w Hw. runs_nil. Qed.

Lemma runs_exit c Q : Q (Exit c) [] -> runs t (process_exit c) Q.
Proof. intros HQ w Hw. runs_nil. Qed.

Lemma runs_bind {B} (m : M B) (k : B -> M A) Q :
  runs t m (fun r evs1 =>
              match r with
              | Ret b => runs t (k b) (fun r' evs2 => Q r' (evs1 ++ evs2))
              | Throw e => Q (Throw e) evs1
              | Exit c => Q (Exit c) evs1
              | Stalled => Q Stalled evs1
              end) ->
  runs t (bind m k) Q.
Proof.
  intros Hm w Hw. destruct (Hm w Hw) as (evs1 & Htr & Hnow & H).
  unfold bind. destruct (m w) as [[b|e|c|] w1]; cbn [fst snd] in *;
    try (exists evs1; done).
  destruct (H w1 Hnow) as (evs2 & Htr2 & Hnow2 & HQ).
  exists (evs1 ++ evs2). by rewrite Htr2, Htr, app_assoc.
Qed.

Lemma runs_try_catch (m : M A) (h : string -> M A) Q :
  runs t m (fun r evs1 =>
              match r with
              | Throw e => runs t (h e) (fun r' evs2 => Q r' (evs1 ++ evs2))
              | _ => Q r evs1
              end) ->
  runs t (try_catch m h) Q.
Proof.
  intros Hm w Hw. destruct (Hm w Hw) as (evs1 & Htr & Hnow & H).
  unfold try_catch. destruct (m w) as [[b|e|c|] w1]; cbn [fst snd] in *;
    try (exists evs1; done).
  destruct (H w1 Hnow) as (evs2 & Htr2 & Hnow2 & HQ).
  exists (evs1 ++ evs2). by rewrite Htr2, Htr, app_assoc.
Qed.

End Logic.

Section Primitives.
Context (t : N).

Lemma runs_get {A} (f : World -> A) Q :
  (forall a, Q (Ret a) []) -> runs t (get f) Q.
Proof. intros HQ w Hw. runs_nil. Qed.

Lemma runs_get_now Q : Q (Ret t) [] -> runs t (get now) Q.
Proof. intros HQ w Hw. subst t. runs_nil. Qed.

Lemma runs_console m Q : Q (Ret tt) [EvLog m] -> runs t (console m) Q.
Proof. intros HQ w Hw. exists [EvLog m]. cbn. eauto. Qed.

Lemma runs_set_originalBranch b Q :
  Q (Ret tt) [] -> runs t (modify (set_originalBranch b)) Q.
Proof. intros HQ w Hw. runs_nil. Qed.

Lemma runs_set_stashCreated b Q :
  Q (Ret tt) [] -> runs t (modify (set_stashCreated b)) Q.
Proof. intros HQ w Hw. runs_nil. Qed.

Lemma runs_set_rl_open b Q :
  Q (Ret tt) [] -> runs t (modify (set_rl_open b)) Q.
Proof. intros HQ w Hw. runs_nil. Qed.

Lemma runs_existsSync p Q :
  (forall b, Q (Ret b) []) -> runs t (existsSync p) Q.
Proof. intros HQ. by apply runs_get. Qed.

Lemma runs_readFileSync p Q :
  (forall c, Q (Ret c) []) -> (forall e, Q (Throw e) []) ->
  runs t (readFileSync p) Q.
Proof.
  intros HR HT w Hw. unfold readFileSync.
  destruct (fs w !! resolve w p) as [[c|]|]; runs_nil.
Qed.

Lemma runs_writeFileSync p c Q :
  Q (Ret tt) [EvWrite p c] -> (forall e, Q (Throw e) []) ->
  runs t (writeFileSync p c) Q.
Proof.
  intros HR HT w Hw. unfold writeFileSync. destruct (is_dir w p).
  - runs_nil.
  - exists [EvWrite p c]. cbn. eauto.
Qed.

Lemma runs_mkdirSync p Q :
  Q (Ret tt) [EvMkdir p] -> (forall e, Q (Throw e) []) ->
  runs t (mkdirSync p) Q.
Proof.
  intros HR HT w Hw. unfold mkdirSync. cbv zeta. destruct (existsb _ _).
  - runs_nil.
  - exists [EvMkdir p]. cbn. eauto.
Qed.

Lemma runs_chdir p Q :
  Q (Ret tt) [EvChdir p] -> (forall e, Q (Throw e) []) ->
  runs t (chdir p) Q.
Proof.
  intros HR HT w Hw. unfold chdir. destruct (is_dir w p).
  - exists [EvChdir p]. cbn. eauto.
  - runs_nil.
Qed.

Lemma runs_executeCommand c Q :
  (forall out, Q (Ret out) [EvExec c true]) ->
  Q (Exit 1) [EvExec c false; EvLog (MsgCommandError c)] ->
  runs t (executeCommand c) Q.
Proof.
  intros HR HE w Hw. unfold executeCommand. cbv zeta.
  destruct (if match faults w with [] => false | f :: _ => f end then None
            else git_exec c (git (set_faults (tail (faults w)) w)))
    as [[out g']|].
  - exists [EvExec c true]. cbn. eauto.
  - exists [EvExec c false; EvLog (MsgCommandError c)].
    cbn. rewrite <- app_assoc. eauto.
Qed.

Lemma runs_askQuestion q Q :
  (forall l, Q (Ret (Js.trim l)) [EvAsk q l]) -> Q Stalled [] ->
  runs t (askQuestion q) Q.
Proof.
  intros HR HS w Hw. unfold askQuestion. destruct (stdin w) as [|l rest].
  - runs_nil.
  - exists [EvAsk q l]. cbn. eauto.
Qed.

Lemma runs_getAvailableProjects Q :
  (forall l, Q (Ret l) []) -> (forall e, Q (Throw e) []) ->
  runs t getAvailableProjects Q.
Proof.
  intros HR HT w Hw.
  unfold getAvailableProjects, bind, existsSync, get.
  destruct (is_file w _ || is_dir w _); cbn [negb]; [|runs_nil].
  destruct (is_dir w _); runs_nil.
Qed.

End Primitives.

Lemma runs_finally_close {A} t (m : M A) Q :
  runs t m Q -> runs t (try_finally m (modify (set_rl_open false))) Q.
Proof.
  intros Hm w Hw. destruct (Hm w Hw) as (evs & Htr & Hnow & HQ).
  exists evs. unfold try_finally. destruct (m w) as [[a|e|c|] w1]; done.
Qed.

(** Symbolic execution: one step of the program, by the rule of its head. *)
Ltac step :=
  lazymatch goal with
  | |- runs _ (bind _ _) _ => apply runs_bind
  | |- runs _ (ret _) _ => apply runs_ret
  | |- runs _ (throw _) _ => apply runs_throw
  | |- runs _ (process_exit _) _ => apply runs_exit
  | |- runs _ (console _) _ => apply runs_console
  | |- runs _ (get now) _ => apply runs_get_now
  | |- runs _ (get _) _ => apply runs_get; intros ?
  | |- runs _ (modify (set_originalBranch _)) _ => apply runs_set_originalBranch
  | |- runs _ (modify (set_stashCreated _)) _ => apply runs_set_stashCreated
  | |- runs _ (modify (set_rl_open _)) _ => apply runs_set_rl_open
  | |- runs _ (try_finally _ (modify (set_rl_open false))) _ =>
      apply runs_finally_close
  | |- runs _ (try_catch _ _) _ => apply runs_try_catch
  | |- runs _ (executeCommand _) _ => apply runs_executeCommand; [intros ?|]
  | |- runs _ (askQuestion _) _ => apply runs_askQuestion; [intros ?|]
  | |- runs _ (existsSync _) _ => apply runs_existsSync; intros ?
  | |- runs _ (readFileSync _) _ => apply runs_readFileSync; intros ?
  | |- runs _ (writeFileSync _ _) _ => apply runs_writeFileSync; [|intros ?]
  | |- runs _ (mkdirSync _) _ => apply runs_mkdirSync; [|intros ?]
  | |- runs _ (chdir _) _ => apply runs_chdir; [|intros ?]
  | |- runs _ getAvailableProjects _ =>
      apply runs_getAvailableProjects; intros ?
  | |- runs _ (when ?b _) _ => unfold when at 1; destruct b
  | |- runs _ (if ?b then _ else _) _ => destruct b eqn:?
  | |- runs _ (match ?x with _ => _ end) _ => destruct x eqn:?
  | |- runs _ getCurrentBranch _ => unfold getCurrentBranch
  | |- runs _ hasUncommittedChanges _ => unfold hasUncommittedChanges
  | |- runs _ choosePushRemote _ => unfold choosePushRemote
  | |- runs _ restoreOriginalState _ => unfold restoreOriginalState
  | |- runs _ (main_catch _) _ => unfold main_catch
  | |- runs _ (addFeatureFlagToFile _ _) _ => unfold addFeatureFlagToFile
  end; cbv beta iota zeta.

(** The environment-type loop: it consumes lines at its own prompt until one
    is valid, or until none is left. *)
Lemma runs_askEnvType_loop t pending (Q : outcome string -> list Event -> Prop) :
  (forall ls l,
      Js.trim l = "prod" \/ Js.trim l = "non-prod" ->
      Q (Ret (Js.trim l)) (map (EvAsk AskEnvType) (ls ++ [l]))) ->
  (forall ls, Q Stalled (map (EvAsk AskEnvType) ls)) ->
  runs t (askEnvType_loop pending) Q.
Proof.
  revert Q. induction pending as [|x rest IH]; intros Q HR HS.
  - intros w Hw. exists []. rewrite app_nil_r. cbn. split_and!; [done..|]. apply (HS []).
  - cbn [askEnvType_loop]. repeat step.
    + apply (HR [] l). apply orb_true_iff in Heqb as [H|H];
        apply String.eqb_eq in H; tauto.
    + apply IH.
      * intros ls l' Hv. apply (HR (l :: ls) l' Hv).
      * intros ls. apply (HS (l :: ls)).
    + apply (HS []).
Qed.

Lemma runs_askEnvType t (Q : outcome string -> list Event -> Prop) :
  (forall ls l,
      Js.trim l = "prod" \/ Js.trim l = "non-prod" ->
      Q (Ret (Js.trim l)) (map (EvAsk AskEnvType) (ls ++ [l]))) ->
  (forall ls, Q Stalled (map (EvAsk AskEnvType) ls)) ->
  runs t askEnvType Q.
Proof. intros HR HS w. apply (runs_askEnvType_loop t (stdin w) Q HR HS). Qed.

Lemma runs_addFeatureFlagToFile t p f (Q : outcome bool -> list Event -> Prop) :
  (forall m, Q (Ret false) [EvLog m]) ->
  (forall c m, Q (Ret true) [EvWrite p c; EvLog m]) ->
  (forall e, Q (Throw e) []) ->
  runs t (addFeatureFlagToFile p f) Q.
Proof. intros HF HT HE. repeat step; cbn [app]; auto. Qed.

(** ** Observers *)

Lemma failed_app a b : failed (a ++ b) = failed a ++ failed b.
Proof.
  induction a as [|[c []| | | | | |] a IH]; cbn [app failed]; by rewrite ?IH.
Qed.
Lemma commands_app a b : commands (a ++ b) = commands a ++ commands b.
Proof.
  induction a as [|[| | | | | |] a IH]; cbn [app commands]; by rewrite ?IH.
Qed.
Lemma writes_app a b : writes (a ++ b) = writes a ++ writes b.
Proof.
  induction a as [|[| | | | | |] a IH]; cbn [app writes]; by rewrite ?IH.
Qed.
Lemma consumed_app a b : consumed (a ++ b) = consumed a ++ consumed b.
Proof.
  induction a as [|[| | | | | |] a IH]; cbn [app consumed]; by rewrite ?IH.
Qed.

Lemma commands_asks q ls : commands (map (EvAsk q) ls) = [].
Proof. by induction ls. Qed.
Lemma writes_asks q ls : writes (map (EvAsk q) ls) = [].
Proof. by induction ls. Qed.
Lemma consumed_asks q ls : consumed (map (EvAsk q) ls) = map (pair q) ls.
Proof. induction ls as [|l ls IH]; [done|]. cbn. by rewrite IH. Qed.

(** ** C10: a failed command ends the process *)

Lemma fail_stop_nil {A} (r : outcome A) : fail_stop r [].
Proof. by left. Qed.

Lemma fail_stop_failure {A} c :
  @fail_stop A (Exit 1) [EvExec c false; EvLog (MsgCommandError c)].
Proof. right. split; [done|]. by exists [], c. Qed.

Lemma fail_stop_app {A} (r : outcome A) seg evs :
  failed seg = [] -> fail_stop r evs -> fail_stop r (seg ++ evs).
Proof.
  intros Hs [H|(Hr & pre & c & -> & Hpre)].
  - left. by rewrite failed_app, Hs, H.
  - right. split; [done|]. exists (seg ++ pre), c.
    by rewrite failed_app, Hs, Hpre, app_assoc.
Qed.

Lemma fail_stop_cons {A} (r : outcome A) e evs :
  failed [e] = [] -> fail_stop r evs -> fail_stop r (e :: evs).
Proof. intros. by apply (fail_stop_app r [e]). Qed.

(** Right-nest the appends of a trace. *)
Ltac flatten_trace :=
  cbn [app]; rewrite <- ?app_assoc; cbn [app].

Ltac fail_stop_leaf :=
  flatten_trace;
  repeat first
    [ apply fail_stop_nil
    | apply fail_stop_failure
    | apply fail_stop_cons; [reflexivity|]
    | apply fail_stop_app; [solve [auto]|]
    | left; solve [auto] ].


Lemma runs_updateEnvFiles t pp f dirs n (Q : outcome nat -> list Event -> Prop) :
  (forall evs n',
      commands evs = [] -> consumed evs = [] ->
      (n <= n')%nat -> ((n < n')%nat -> writes evs <> []) ->
      Q (Ret n') evs) ->
  (forall evs e, commands evs = [] -> consumed evs = [] -> Q (Throw e) evs) ->
  runs t (updateEnvFiles pp f dirs n) Q.
Proof.
  revert n Q. induction dirs as [|env rest IH]; intros n Q HR HT.
  - cbn [updateEnvFiles]. step. apply HR; [done|done|lia|lia].
  - cbn [updateEnvFiles]. cbv zeta.
    assert (forall pre,
      commands pre = [] -> consumed pre = [] ->
      runs t (addFeatureFlagToFile (path_join (path_join pp env) "values.yaml") f)
        (fun r evs1 =>
           match r with
           | Ret b =>
               runs t (updateEnvFiles pp f rest (if b then S n else n))
                 (fun r' evs2 => Q r' (pre ++ evs1 ++ evs2))
           | Throw e => Q (Throw e) (pre ++ evs1)
           | Exit c => Q (Exit c) (pre ++ evs1)
           | Stalled => Q Stalled (pre ++ evs1)
           end)) as Hadd.
    { intros pre Hc Ha. apply runs_addFeatureFlagToFile.
      - intros m. apply IH.
        + intros evs n' ? ? ? Hw. apply HR; [| |lia|].
          * by rewrite !commands_app, Hc.
          * by rewrite !consumed_app, Ha.
          * intros Hlt. rewrite !writes_app. intros Hnil.
            apply app_eq_nil in Hnil as [_ Hnil].
            apply app_eq_nil in Hnil as [_ Hnil]. by apply Hw.
        + intros evs e ? ?. apply HT.
          * by rewrite !commands_app, Hc.
          * by rewrite !consumed_app, Ha.
      - intros c m. apply IH.
        + intros evs n' ? ? ? Hw. apply HR; [| |lia|].
          * by rewrite !commands_app, Hc.
          * by rewrite !consumed_app, Ha.
          * intros _. rewrite !writes_app. intros Hnil.
            apply app_eq_nil in Hnil as [_ Hnil].
            apply app_eq_nil in Hnil as [Hnil _]. discriminate.
        + intros evs e ? ?. apply HT.
          * by rewrite !commands_app, Hc.
          * by rewrite !consumed_app, Ha.
      - intros e. apply HT; by rewrite app_nil_r. }
    do 4 step.
    + step.
      * apply runs_bind.
        eapply runs_conseq; [apply (Hadd [EvMkdir (path_join pp env)]); done|].
        intros [b'|e|c|] evs H; cbv beta iota; cbn [app] in *; done.
      * by apply HT.
    + step. apply runs_bind. eapply runs_conseq; [apply (Hadd []); done|].
      intros [b'|e|c|] evs H; cbv beta iota; cbn [app] in *; done.
Qed.

Lemma failed_asks q ls : failed (map (EvAsk q) ls) = [].
Proof. by induction ls. Qed.

Lemma failed_no_commands evs : commands evs = [] -> failed evs = [].
Proof.
  induction evs as [|[c ok| | | | | |] evs IH]; cbn; try done.
Qed.

#[local] Hint Resolve failed_asks failed_no_commands : core.

Ltac run_program :=
  repeat first
    [ step
    | apply runs_askEnvType; [intros ? ? ?|intros ?]
    | apply runs_updateEnvFiles; [intros ? ? ? ? ? ?|intros ? ? ? ?] ].

(** Every run of main has the fail-stop shape. *)
Lemma main_fail_stop t : runs t main fail_stop.
Proof.
  unfold main, main_try. run_program; fail_stop_leaf.
Qed.

Lemma events_of_runs {A} t (m : M A) Q w :
  runs t m Q -> now w = t -> Q (m w).1 (events_of m w).
Proof.
  intros Hm Hw. destruct (Hm w Hw) as (evs & Htr & _ & HQ).
  by rewrite (events_of_app m w evs Htr).
Qed.

Lemma first_failure_is_last pre' c' pre c post :
  failed pre' = [] ->
  pre' ++ [EvExec c' false; EvLog (MsgCommandError c')] = pre ++ EvExec c false :: post ->
  post = [EvLog (MsgCommandError c)].
Proof.
  revert pre. induction pre' as [|x pre' IH]; intros pre Hq H.
  - destruct pre as [|y pre]; cbn in H.
    + by injection H as <- <-.
    + injection H as <- H. destruct pre as [|z pre]; cbn in H; [discriminate|].
      injection H as _ H. by destruct pre.
  - destruct pre as [|y pre]; cbn in H.
    + injection H as -> _. discriminate.
    + injection H as <- H. apply (IH pre); [|done].
      destruct x as [? []| | | | | |]; cbn in Hq; done.
Qed.

(** C10: whenever a command run through executeCommand fails, the failure
    is never passed on as an exception (executeCommand never throws), the
    process ends with exit status 1, and nothing happens after the failed
    call but the error report of executeCommand itself: neither the catch
    block of main nor its restoration commands run. *)
Theorem C10_failed_command_exits_at_once :
  (forall c w e, (executeCommand c w).1 <> Throw e) /\
  (forall w c pre post,
      events_of main w = pre ++ EvExec c false :: post ->
      (main w).1 = Exit 1 /\ post = [EvLog (MsgCommandError c)]).
Proof.
  split.
  - intros c w e. unfold executeCommand. cbv zeta.
    destruct (if match faults w with [] => false | f :: _ => f end then None
              else git_exec c (git (set_faults (tail (faults w)) w)))
      as [[out g']|]; discriminate.
  - intros w c pre post H.
    pose proof (events_of_runs (now w) main fail_stop w (main_fail_stop _) eq_refl)
      as [Hq|(Hr & pre' & c' & Hevs & Hq)].
    + rewrite H, failed_app in Hq. by destruct (failed pre).
    + split; [done|]. rewrite H in Hevs. symmetry in Hevs.
      by apply (first_failure_is_last pre' c' pre c post).
Qed.

Lemma C10_failed_command_exits_at_once_witness :
  (main w_pull_fails).1 = Exit 1 /\
  [EvLog (MsgCommandError GitPullOriginMaster)]
  = [EvLog (MsgCommandError GitPullOriginMaster)].
Proof.
  apply (proj2 C10_failed_command_exits_at_once w_pull_fails GitPullOriginMaster
           [EvChdir "/dev/k8s-template"; EvExec GitRevParseHead true;
            EvExec GitStatusPorcelain true; EvExec GitStashPush true;
            EvAsk AskFlagName "FEATURE_X"; EvAsk AskProject "svc-a";
            EvAsk AskEnvType "prod"; EvAsk AskConfirm "y";
            EvExec GitFetchOrigin true; EvExec (GitCheckout "master") true]).
  vm_compute. reflexivity.
Defined.

(** ** C1: restoration after a fatal step *)

(** C1, the code at two failing inputs.  The workspace is on feature-x
    with one uncommitted change, which capture moves into a stash.  When
    git pull fails (step 2) the run ends with exit status 1 on master; when
    gh pr create fails (step 7) it ends on the topic branch.  Either way
    no checkout of feature-x and no stash pop is issued, the change is
    still in the stash and not in the working tree. *)
Theorem C1_no_restoration_after_failed_command :
  branch (git w_pull_fails) = "feature-x" /\
  changes (git w_pull_fails) = ["README.md"] /\
  (let r := main w_pull_fails in
   r.1 = Exit 1 /\
   last (events_of main w_pull_fails)
     = Some (EvLog (MsgCommandError GitPullOriginMaster)) /\
   branch (git r.2) = "master" /\
   changes (git r.2) = [] /\
   stash (git r.2) = [["README.md"]] /\
   (GitCheckout "feature-x" ∉ commands (events_of main w_pull_fails)) /\
   (GitStashPop ∉ commands (events_of main w_pull_fails))) /\
  (let r := main w_pr_fails in
   r.1 = Exit 1 /\
   branch (git r.2) = topicBranch /\
   changes (git r.2) = [] /\
   stash (git r.2) = [["README.md"]] /\
   (GitCheckout "feature-x" ∉ commands (events_of main w_pr_fails)) /\
   (GitStashPop ∉ commands (events_of main w_pr_fails))).
Proof.
  cbv zeta. split_and!; try (vm_compute; reflexivity);
    rewrite list_elem_of_In; vm_compute; intuition discriminate.
Qed.

(** ** C3: the scripted input of a bulk run *)

(** No prompt of the single-project flow asks for the operation, so what a
    run consumes never matches the roles the bulk script intends. *)
Lemma consumed_roles_never_intended evs operation featureFlagName project envType :
  map (fun x => (roleOf x.1, x.2)) (consumed evs)
  <> map (fun x => (Some x.1, x.2))
         (intendedRoles operation featureFlagName project envType).
Proof.
  destruct (consumed evs) as [|[[] l] rest]; discriminate.
Qed.

(** C3, the code at the failing input: for the bulk run
    [add FEATURE_X non-prod svc-a] the child is sent the five lines add,
    FEATURE_X, svc-a, non-prod, y in one piece.  The flag-name prompt, the
    only question pending when they arrive, takes the operation; the
    four other lines reach no prompt at all.  The child is left at its
    next question, for the project, and ends with status 0, which the
    parent reports as a success; it has written nothing and created no
    branch. *)
Theorem C3_scripted_answers_do_not_reach_their_prompts :
  let child := runChild (childInput "add" "FEATURE_X" "svc-a" "non-prod") in
  bulkArgs ["add"; "FEATURE_X"; "non-prod"; "svc-a"]
    = Some ("add", "FEATURE_X", "non-prod", ["svc-a"]) /\
  readline_lines (childInput "add" "FEATURE_X" "svc-a" "non-prod")
    = ["add"; "FEATURE_X"; "svc-a"; "non-prod"; "y"] /\
  piped_answers (childInput "add" "FEATURE_X" "svc-a" "non-prod") = ["add"] /\
  consumed (events_of child w_bulk) = [(AskFlagName, "add")] /\
  (child w_bulk).1 = Stalled /\
  childStatus (child w_bulk).1 = 0%Z /\
  writes (events_of child w_bulk) = [] /\
  created (events_of child w_bulk) = [].
Proof. cbv zeta. split_and!; vm_compute; reflexivity. Qed.

(** ** C9: a run that changes nothing *)

(** C9, the claim refuted: svc-a/prod already has the flag, so nothing is
    applied.  The run issues no commit, push or pull request, but it ends
    with exit status 1 after reporting that no files were updated, and it
    attempts no restoration: no checkout of feature-x and no stash pop is
    issued, and the workspace stays on the topic branch with the stash. *)
Lemma C9_no_change_exits_1_unrestored :
  let r := main w_already in
  let evs := events_of main w_already in
  writes evs = [] /\
  published evs = [] /\
  last evs = Some (EvLog MsgNoFilesUpdated) /\
  exit_status r.1 = Some 1%Z /\
  (GitCheckout "feature-x" ∉ commands evs) /\
  (GitStashPop ∉ commands evs) /\
  branch (git r.2) = topicBranch /\
  stash (git r.2) = [["README.md"]] /\
  ~ (exit_status r.1 = Some 0%Z /\ GitStashPop ∈ commands evs).
Proof.
  cbv zeta. split_and!; try (vm_compute; reflexivity);
    rewrite ?list_elem_of_In; vm_compute; intuition discriminate.
Qed.

(** ** C8: the name of the topic branch *)

(** ** Runs of main, observed *)

(** Compute the observers of a trace whose opaque segments are known to
    hold no command and no answer. *)
Ltac observe :=
  flatten_trace;
  repeat first
    [ progress cbn [commands writes consumed created pushed published
                    branches_created branches_pushed List.filter publishes app]
    | rewrite commands_app | rewrite writes_app | rewrite consumed_app
    | rewrite commands_asks | rewrite writes_asks | rewrite consumed_asks
    | rewrite app_nil_r
    | match goal with
      | H : commands ?e = [] |- context [commands ?e] => rewrite H
      | H : consumed ?e = [] |- context [consumed ?e] => rewrite H
      end ].

Ltac no_change_leaf :=
  unfold no_change_post, published, created; observe;
  let Hw := fresh "Hw" in
  intros Hw; split; [|intros ?];
  first
    [ reflexivity
    | congruence
    | exfalso;
      match goal with
      | Hn : (?n =? 0)%nat = false, Hwr : (0 < ?n)%nat -> writes ?e <> [] |- _ =>
          apply Hwr; [apply Nat.eqb_neq in Hn; lia|exact Hw]
      end ].

Lemma main_no_change t : runs t main no_change_post.
Proof.
  unfold main, main_try. run_program; no_change_leaf.
Qed.

(** C9, amended: a run that applies nothing (it writes no config file)
    issues no commit, no push and no pull-request command; and when it got
    as far as creating the topic branch, it ends with exit status 1, a
    failure. *)
Theorem C9_no_change_publishes_nothing_and_fails (w : World) :
  writes (events_of main w) = [] ->
  published (events_of main w) = [] /\
  (created (events_of main w) <> [] -> (main w).1 = Exit 1).
Proof.
  apply (events_of_runs (now w) main no_change_post w (main_no_change _) eq_refl).
Qed.

Lemma C9_no_change_publishes_nothing_and_fails_witness :
  published (events_of main w_already) = [] /\
  (created (events_of main w_already) <> [] -> (main w_already).1 = Exit 1).
Proof.
  apply (C9_no_change_publishes_nothing_and_fails w_already).
  vm_compute. reflexivity.
Defined.

Lemma last_asked (q : Prompt) (ls : list string) (l : string) :
  (q, l) ∈ map (pair q) (ls ++ [l]).
Proof. rewrite map_app. apply elem_of_app. right. apply list_elem_of_here. Qed.

Ltac find_answer :=
  repeat first
    [ apply list_elem_of_here
    | apply elem_of_app; left; apply last_asked
    | apply list_elem_of_further ].











(** ** Two runs for comparison *)

(** A run without failures ends normally, back on the original branch and
    with the stashed change in the working tree again. *)
Example main_success_restores :
  let r := main w_success in
  r.1 = Ret tt /\
  branch (git r.2) = "feature-x" /\
  changes (git r.2) = ["README.md"] /\
  stash (git r.2) = [] /\
  created (events_of main w_success) = [topicBranch] /\
  pushed (events_of main w_success) = [topicBranch] /\
  fs r.2 !! valuesFile "svc-a" "prod"
    = Some (File ("A: 1" +:+ LF +:+ "FEATURE_X: true" +:+ LF)).
Proof. cbv zeta. split_and!; vm_compute; reflexivity. Qed.

(** An exception thrown by the file system does reach the catch block of
    main, which restores the branch and the stash before exiting with 1. *)
Example main_thrown_error_restores :
  let r := main w_throws in
  r.1 = Exit 1 /\
  branch (git r.2) = "feature-x" /\
  changes (git r.2) = ["README.md"] /\
  stash (git r.2) = [] /\
  drop 12 (events_of main w_throws)
    = [EvLog (MsgErrorOccurred "EISDIR"); EvExec (GitCheckout "feature-x") true;
       EvExec GitStashPop true].
Proof. cbv zeta. split_and!; vm_compute; reflexivity. Qed.

(** * Further properties of the code *)

(** ** The config mutator *)

Lemma endsWith_app a b : Js.endsWith (a +:+ b) b = true.
Proof.
  induction a as [|x a IH].
  - change (EmptyString +:+ b) with b.
    destruct b; cbn [Js.endsWith]; by rewrite ?String.eqb_refl.
  - rewrite append_cons. cbn [Js.endsWith]. by rewrite IH, orb_true_r.
Qed.

Lemma includes_app_mid a s b : Js.includes (a +:+ s +:+ b) s = true.
Proof. apply includes_spec. eauto. Qed.

Lemma flag_line_includes_flag x f : Js.includes (x +:+ flag_line f) (f +:+ ":") = true.
Proof.
  unfold flag_line.
  replace (x +:+ f +:+ ": true" +:+ LF) with (x +:+ (f +:+ ":") +:+ (" true" +:+ LF))
    by (by rewrite !append_assoc).
  apply includes_app_mid.
Qed.

Lemma flag_line_includes_colon x f : Js.includes (x +:+ flag_line f) ":" = true.
Proof. apply (includes_app_suffix _ f). apply flag_line_includes_flag. Qed.

(** X1: Add is idempotent.  On a path that is not a directory, a second
    Add of the same flag always returns false and leaves the file system
    exactly as the first Add left it. *)
Theorem add_twice_is_add_once (w : World) (p f : string) :
  fs w !! resolve w p <> Some Dir ->
  (addTwice p f w).1 = Ret false /\
  fs (addTwice p f w).2 = fs (addFeatureFlagToFile p f w).2.
Proof.
  intros Hd. unfold addTwice, bind.
  destruct (fs w !! resolve w p) as [[c|]|] eqn:H; [|done|].
  - destruct (Js.includes c (f +:+ ":")) eqn:Hf;
      [|destruct (Js.includes c ":") eqn:Hc].
    + rewrite (add_present w p f c) by done.
      by rewrite (add_present _ p f c).
    + rewrite (add_append w p f c) by done.
      erewrite add_present; [done|apply lookup_insert_eq|apply flag_line_includes_flag].
    + rewrite (add_new_structure w p f c) by done.
      erewrite add_present; [done|apply lookup_insert_eq|].
      rewrite <- append_assoc. apply flag_line_includes_flag.
  - rewrite (add_missing w p f) by done. by rewrite add_missing.
Qed.

Lemma add_twice_is_add_once_witness :
  (addTwice (valuesFile "svc-a" "main") "FEATURE_X" w_plain).1 = Ret false /\
  fs (addTwice (valuesFile "svc-a" "main") "FEATURE_X" w_plain).2
  = fs (addFeatureFlagToFile (valuesFile "svc-a" "main") "FEATURE_X" w_plain).2.
Proof.
  apply (add_twice_is_add_once w_plain (valuesFile "svc-a" "main") "FEATURE_X").
  vm_compute. discriminate.
Defined.

(** X2: after an Add that returns true, the config path holds a content
    that ends with the line [flag: true], newline included, and that has a
    colon, so that a later Add of another flag appends to it. *)
Theorem add_success_ends_with_flag_line (w : World) (p f : string) :
  (addFeatureFlagToFile p f w).1 = Ret true ->
  exists content,
    fs (addFeatureFlagToFile p f w).2 !! resolve w p = Some (File content) /\
    Js.endsWith content (f +:+ ": true" +:+ LF) = true /\
    Js.includes content (f +:+ ":") = true /\
    Js.includes content ":" = true.
Proof.
  intros Hr. destruct (fs w !! resolve w p) as [[c|]|] eqn:H.
  - destruct (Js.includes c (f +:+ ":")) eqn:Hf;
      [|destruct (Js.includes c ":") eqn:Hc].
    + rewrite (add_present w p f c) in Hr by done. discriminate.
    + rewrite (add_append w p f c) by done. eexists. split; [apply lookup_insert_eq|].
      split_and!; [apply endsWith_app|apply flag_line_includes_flag
                  |apply flag_line_includes_colon].
    + rewrite (add_new_structure w p f c) by done. eexists.
      split; [apply lookup_insert_eq|]. rewrite <- append_assoc.
      split_and!; [apply endsWith_app|apply flag_line_includes_flag
                  |apply flag_line_includes_colon].
  - rewrite add_directory in Hr by done. discriminate.
  - rewrite add_missing in Hr by done. discriminate.
Qed.

Lemma add_success_ends_with_flag_line_witness :
  exists content,
    fs (addFeatureFlagToFile (valuesFile "svc-a" "main") "FEATURE_X" w_plain).2
      !! resolve w_plain (valuesFile "svc-a" "main") = Some (File content) /\
    Js.endsWith content ("FEATURE_X" +:+ ": true" +:+ LF) = true /\
    Js.includes content ("FEATURE_X" +:+ ":") = true /\
    Js.includes content ":" = true.
Proof.
  apply (add_success_ends_with_flag_line w_plain (valuesFile "svc-a" "main")
           "FEATURE_X").
  reflexivity.
Defined.

(** X3: Add touches no path but its own: every other path keeps its node,
    no path loses its node, and the working directory and the branch are
    left alone. *)
Theorem add_leaves_other_paths (w : World) (p f q : string) :
  q <> resolve w p ->
  fs (addFeatureFlagToFile p f w).2 !! q = fs w !! q /\
  (is_Some (fs w !! resolve w p) ->
   is_Some (fs (addFeatureFlagToFile p f w).2 !! resolve w p)) /\
  cwd (addFeatureFlagToFile p f w).2 = cwd w /\
  branch (git (addFeatureFlagToFile p f w).2) = branch (git w).
Proof.
  intros Hq. destruct (fs w !! resolve w p) as [[c|]|] eqn:H.
  - destruct (Js.includes c (f +:+ ":")) eqn:Hf;
      [|destruct (Js.includes c ":") eqn:Hc].
    + rewrite (add_present w p f c) by done. cbn. by rewrite H.
    + rewrite (add_append w p f c) by done. cbn.
      rewrite lookup_insert_ne by done. rewrite lookup_insert_eq. eauto.
    + rewrite (add_new_structure w p f c) by done. cbn.
      rewrite lookup_insert_ne by done. rewrite lookup_insert_eq. eauto.
  - rewrite add_directory by done. cbn. by rewrite H.
  - rewrite add_missing by done. cbn. by rewrite H.
Qed.

Lemma add_leaves_other_paths_witness :
  fs (addFeatureFlagToFile (valuesFile "svc-a" "main") "FEATURE_X" w_plain).2
    !! "/dev/k8s-template" = fs w_plain !! "/dev/k8s-template" /\
  (is_Some (fs w_plain !! resolve w_plain (valuesFile "svc-a" "main")) ->
   is_Some (fs (addFeatureFlagToFile (valuesFile "svc-a" "main") "FEATURE_X"
                  w_plain).2 !! resolve w_plain (valuesFile "svc-a" "main"))) /\
  cwd (addFeatureFlagToFile (valuesFile "svc-a" "main") "FEATURE_X" w_plain).2
  = cwd w_plain /\
  branch (git (addFeatureFlagToFile (valuesFile "svc-a" "main") "FEATURE_X"
                 w_plain).2) = branch (git w_plain).
Proof.
  apply (add_leaves_other_paths w_plain (valuesFile "svc-a" "main") "FEATURE_X"
           "/dev/k8s-template").
  vm_compute. discriminate.
Defined.

(** X4: the white-space test of part_002:77 never decides: the content is
    replaced by the header structure exactly when it has no colon, blank
    or not. *)
Theorem new_structure_test_is_colon_test (content : string) :
  negb (Js.truthy (Js.trim content)) || negb (Js.includes content ":")
  = negb (Js.includes content ":").
Proof.
  destruct (Js.truthy (Js.trim content)) eqn:Ht; [done|].
  by rewrite (blank_no_colon _ Ht).
Qed.

(** ** The logic with process state *)

Section LogicL.
Context {A : Type}.
Implicit Types Q : outcome A -> list Event -> Locals -> Prop.

Lemma runsL_conseq s (m : M A) Q Q' :
  runsL s m Q -> (forall r evs s', Q r evs s' -> Q' r evs s') -> runsL s m Q'.
Proof.
  intros Hm HQ w Hw. destruct (Hm w Hw) as (evs & Htr & HQe). eauto.
Qed.

Lemma runsL_ret s (a : A) Q : Q (Ret a) [] s -> runsL s (ret a) Q.
Proof. intros HQ w <-. exists []. by rewrite app_nil_r. Qed.

Lemma runsL_throw s e Q : Q (Throw e) [] s -> runsL s (throw e) Q.
Proof. intros HQ w <-. exists []. by rewrite app_nil_r. Qed.

Lemma runsL_exit s c Q : Q (Exit c) [] s -> runsL s (process_exit c) Q.
Proof. intros HQ w <-. exists []. by rewrite app_nil_r. Qed.

Lemma runsL_bind {B} s (m : M B) (k : B -> M A) Q :
  runsL s m (fun r evs1 s1 =>
               match r with
               | Ret b => runsL s1 (k b) (fun r' evs2 s2 => Q r' (evs1 ++ evs2) s2)
               | Throw e => Q (Throw e) evs1 s1
               | Exit c => Q (Exit c) evs1 s1
               | Stalled => Q Stalled evs1 s1
               end) ->
  runsL s (bind m k) Q.
Proof.
  intros Hm w Hw. destruct (Hm w Hw) as (evs1 & Htr & H).
  unfold bind. destruct (m w) as [[b|e|c|] w1]; cbn [fst snd] in *;
    try (exists evs1; done).
  destruct (H w1 eq_refl) as (evs2 & Htr2 & HQ).
  exists (evs1 ++ evs2). by rewrite Htr2, Htr, app_assoc.
Qed.

Lemma runsL_try_catch s (m : M A) (h : string -> M A) Q :
  runsL s m (fun r evs1 s1 =>
               match r with
               | Throw e => runsL s1 (h e) (fun r' evs2 s2 => Q r' (evs1 ++ evs2) s2)
               | _ => Q r evs1 s1
               end) ->
  runsL s (try_catch m h) Q.
Proof.
  intros Hm w Hw. destruct (Hm w Hw) as (evs1 & Htr & H).
  unfold try_catch. destruct (m w) as [[b|e|c|] w1]; cbn [fst snd] in *;
    try (exists evs1; done).
  destruct (H w1 eq_refl) as (evs2 & Htr2 & HQ).
  exists (evs1 ++ evs2). by rewrite Htr2, Htr, app_assoc.
Qed.

Lemma runsL_finally_close s (m : M A) Q :
  runsL s m Q -> runsL s (try_finally m (modify (set_rl_open false))) Q.
Proof.
  intros Hm w Hw. destruct (Hm w Hw) as (evs & Htr & HQ).
  exists evs. unfold try_finally. destruct (m w) as [[a|e|c|] w1]; done.
Qed.

End LogicL.

Ltac runsL_nil := exists []; rewrite app_nil_r; cbn; eauto.

Section PrimitivesL.
Context (s : Locals).

Lemma runsL_get_env Q :
  (forall a, Q (Ret a) [] s) -> runsL s (get env_DEV_ROOT) Q.
Proof. intros HQ w <-. runsL_nil. Qed.

Lemma runsL_get_now Q : Q (Ret (l_now s)) [] s -> runsL s (get now) Q.
Proof. intros HQ w <-. runsL_nil. Qed.

Lemma runsL_get_originalBranch Q :
  Q (Ret (l_original s)) [] s -> runsL s (get originalBranch) Q.
Proof. intros HQ w <-. runsL_nil. Qed.

Lemma runsL_get_stashCreated Q :
  Q (Ret (l_stash s)) [] s -> runsL s (get stashCreated) Q.
Proof. intros HQ w <-. runsL_nil. Qed.

Lemma runsL_console m Q : Q (Ret tt) [EvLog m] s -> runsL s (console m) Q.
Proof. intros HQ w <-. exists [EvLog m]. cbn. eauto. Qed.

Lemma runsL_set_originalBranch b Q :
  Q (Ret tt) [] (mkLocals (l_stdin s) b (l_stash s) (l_now s)) ->
  runsL s (modify (set_originalBranch b)) Q.
Proof. intros HQ w <-. runsL_nil. Qed.

Lemma runsL_set_stashCreated b Q :
  Q (Ret tt) [] (mkLocals (l_stdin s) (l_original s) b (l_now s)) ->
  runsL s (modify (set_stashCreated b)) Q.
Proof. intros HQ w <-. runsL_nil. Qed.

Lemma runsL_set_rl_open b Q :
  Q (Ret tt) [] s -> runsL s (modify (set_rl_open b)) Q.
Proof. intros HQ w <-. runsL_nil. Qed.

Lemma runsL_existsSync p Q :
  (forall b, Q (Ret b) [] s) -> runsL s (existsSync p) Q.
Proof. intros HQ w <-. runsL_nil. Qed.

Lemma runsL_readFileSync p Q :
  (forall c, Q (Ret c) [] s) -> (forall e, Q (Throw e) [] s) ->
  runsL s (readFileSync p) Q.
Proof.
  intros HR HT w <-. unfold readFileSync.
  destruct (fs w !! resolve w p) as [[c|]|]; runsL_nil.
Qed.

Lemma runsL_writeFileSync p c Q :
  Q (Ret tt) [EvWrite p c] s -> (forall e, Q (Throw e) [] s) ->
  runsL s (writeFileSync p c) Q.
Proof.
  intros HR HT w <-. unfold writeFileSync. destruct (is_dir w p).
  - runsL_nil.
  - exists [EvWrite p c]. cbn. eauto.
Qed.

Lemma runsL_mkdirSync p Q :
  Q (Ret tt) [EvMkdir p] s -> (forall e, Q (Throw e) [] s) ->
  runsL s (mkdirSync p) Q.
Proof.
  intros HR HT w <-. unfold mkdirSync. cbv zeta. destruct (existsb _ _).
  - runsL_nil.
  - exists [EvMkdir p]. cbn. eauto.
Qed.

Lemma runsL_chdir p Q :
  Q (Ret tt) [EvChdir p] s -> (forall e, Q (Throw e) [] s) ->
  runsL s (chdir p) Q.
Proof.
  intros HR HT w <-. unfold chdir. destruct (is_dir w p).
  - exists [EvChdir p]. cbn. eauto.
  - runsL_nil.
Qed.

Lemma runsL_executeCommand c Q :
  (forall out, Q (Ret out) [EvExec c true] s) ->
  Q (Exit 1) [EvExec c false; EvLog (MsgCommandError c)] s ->
  runsL s (executeCommand c) Q.
Proof.
  intros HR HE w <-. unfold executeCommand. cbv zeta.
  destruct (if match faults w with [] => false | f :: _ => f end then None
            else git_exec c (git (set_faults (tail (faults w)) w)))
    as [[out g']|].
  - exists [EvExec c true]. cbn. eauto.
  - exists [EvExec c false; EvLog (MsgCommandError c)].
    cbn. rewrite <- app_assoc. eauto.
Qed.

Lemma runsL_askQuestion q Q :
  (l_stdin s = [] -> Q Stalled [] s) ->
  (forall l rest,
      l_stdin s = l :: rest ->
      Q (Ret (Js.trim l)) [EvAsk q l]
        (mkLocals rest (l_original s) (l_stash s) (l_now s))) ->
  runsL s (askQuestion q) Q.
Proof.
  intros HS HR w <-. unfold askQuestion. cbn [locals l_stdin] in *.
  destruct (stdin w) as [|l rest].
  - runsL_nil.
  - exists [EvAsk q l]. cbn. split; [done|]. by apply HR.
Qed.

Lemma runsL_getAvailableProjects Q :
  (forall l, Q (Ret l) [] s) -> (forall e, Q (Throw e) [] s) ->
  runsL s getAvailableProjects Q.
Proof.
  intros HR HT w <-.
  unfold getAvailableProjects, bind, existsSync, get.
  destruct (is_file w _ || is_dir w _); cbn [negb]; [|runsL_nil].
  destruct (is_dir w _); runsL_nil.
Qed.

End PrimitivesL.

(** Use what is known about the answers to come. *)
Ltac use_input :=
  cbn [l_stdin l_original l_stash l_now] in *;
  repeat match goal with
         | H : [] = _ :: _ |- _ => discriminate H
         | H : _ :: _ = [] |- _ => discriminate H
         | H : _ :: _ = _ :: _ |- _ => injection H as ? ?
         | H : ?x = _ |- _ => is_var x; subst x
         | H : _ = ?x |- _ => is_var x; subst x
         end.

Ltac stepL :=
  lazymatch goal with
  | |- runsL _ (bind _ _) _ => apply runsL_bind
  | |- runsL _ (ret _) _ => apply runsL_ret
  | |- runsL _ (throw _) _ => apply runsL_throw
  | |- runsL _ (process_exit _) _ => apply runsL_exit
  | |- runsL _ (console _) _ => apply runsL_console
  | |- runsL _ (get now) _ => apply runsL_get_now
  | |- runsL _ (get originalBranch) _ => apply runsL_get_originalBranch
  | |- runsL _ (get stashCreated) _ => apply runsL_get_stashCreated
  | |- runsL _ (get env_DEV_ROOT) _ => apply runsL_get_env; intros ?
  | |- runsL _ (modify (set_originalBranch _)) _ => apply runsL_set_originalBranch
  | |- runsL _ (modify (set_stashCreated _)) _ => apply runsL_set_stashCreated
  | |- runsL _ (modify (set_rl_open _)) _ => apply runsL_set_rl_open
  | |- runsL _ (try_finally _ (modify (set_rl_open false))) _ =>
      apply runsL_finally_close
  | |- runsL _ (try_catch _ _) _ => apply runsL_try_catch
  | |- runsL _ (executeCommand _) _ => apply runsL_executeCommand; [intros ?|]
  | |- runsL _ (askQuestion _) _ =>
      apply runsL_askQuestion; [intros ?|intros ? ? ?]; use_input
  | |- runsL _ (existsSync _) _ => apply runsL_existsSync; intros ?
  | |- runsL _ (readFileSync _) _ => apply runsL_readFileSync; intros ?
  | |- runsL _ (writeFileSync _ _) _ => apply runsL_writeFileSync; [|intros ?]
  | |- runsL _ (mkdirSync _) _ => apply runsL_mkdirSync; [|intros ?]
  | |- runsL _ (chdir _) _ => apply runsL_chdir; [|intros ?]
  | |- runsL _ getAvailableProjects _ =>
      apply runsL_getAvailableProjects; intros ?
  | |- runsL _ (when true _) _ => unfold when at 1
  | |- runsL _ (when false _) _ => unfold when at 1
  | |- runsL _ (when ?b _) _ => unfold when at 1; destruct b eqn:?
  | |- runsL _ (if ?b then _ else _) _ => destruct b eqn:?
  | |- runsL _ (match ?x with _ => _ end) _ => destruct x eqn:?
  | |- runsL _ getCurrentBranch _ => unfold getCurrentBranch
  | |- runsL _ hasUncommittedChanges _ => unfold hasUncommittedChanges
  | |- runsL _ choosePushRemote _ => unfold choosePushRemote
  | |- runsL _ restoreOriginalState _ => unfold restoreOriginalState
  | |- runsL _ (main_catch _) _ => unfold main_catch
  end; cbv beta iota zeta; cbn [l_stdin l_original l_stash l_now].

(** The environment-type loop, by the answers to come: the ones before the
    first valid one are each followed by the question again, the first
    valid one is the result; without a valid one the loop never ends. *)
Lemma runsL_askEnvType_loop pending s
    (Q : outcome string -> list Event -> Locals -> Prop) :
  l_stdin s = pending ->
  (forall pre l post,
      pending = pre ++ l :: post ->
      forallb (fun x => negb (isEnvType (Js.trim x))) pre = true ->
      isEnvType (Js.trim l) = true ->
      Q (Ret (Js.trim l)) (map (EvAsk AskEnvType) (pre ++ [l]))
        (mkLocals post (l_original s) (l_stash s) (l_now s))) ->
  (forallb (fun x => negb (isEnvType (Js.trim x))) pending = true ->
   Q Stalled (map (EvAsk AskEnvType) pending)
     (mkLocals [] (l_original s) (l_stash s) (l_now s))) ->
  runsL s (askEnvType_loop pending) Q.
Proof.
  revert s Q. induction pending as [|x rest IH]; intros [sin ob sc t] Q Hs HR HS;
    cbn [l_stdin l_original l_stash l_now] in *; subst sin.
  - intros w Hw. exists []. rewrite app_nil_r. cbn. split; [done|].
    rewrite Hw. by apply HS.
  - cbn [askEnvType_loop]. apply runsL_bind.
    apply runsL_askQuestion; [intros [=]|intros l rest' [= <- <-]].
    cbv beta iota. cbn [l_stdin l_original l_stash l_now].
    destruct (isEnvType (Js.trim x)) eqn:Hv.
    + unfold isEnvType in Hv. rewrite Hv. stepL. apply (HR [] x rest); done.
    + pose proof Hv as Hv'. unfold isEnvType in Hv'. rewrite Hv'.
      apply IH; [done| |].
      * intros pre l post -> Hpre Hl. apply (HR (x :: pre) l post); [done| |done].
        cbn. by rewrite Hv.
      * intros Hall. apply HS. cbn. by rewrite Hv.
Qed.

Lemma runsL_askEnvType s (Q : outcome string -> list Event -> Locals -> Prop) :
  runsL s (askEnvType_loop (l_stdin s)) Q -> runsL s askEnvType Q.
Proof. intros H w Hw. unfold askEnvType. rewrite <- Hw in H. by apply H. Qed.


Lemma runsL_addFeatureFlagToFile s p f
    (Q : outcome bool -> list Event -> Locals -> Prop) :
  (forall m, Q (Ret false) [EvLog m] s) ->
  (forall x m, Q (Ret true) [EvWrite p (x +:+ flag_line f); EvLog m] s) ->
  (forall e, Q (Throw e) [] s) ->
  runsL s (addFeatureFlagToFile p f) Q.
Proof.
  intros HF HT HE. unfold addFeatureFlagToFile. repeat stepL; cbn [app]; auto.
  rewrite <- append_assoc. apply HT.
Qed.

Lemma flag_write_weaken pp f env dirs pc :
  flag_write pp f dirs pc -> flag_write pp f (env :: dirs) pc.
Proof. intros (e & He & H). exists e. split; [by right|done]. Qed.

(** The mutation loop: it runs no command and asks nothing, it counts the
    files it writes, at most one per environment, and every write is a
    flag write to one of the environments. *)
Lemma runsL_updateEnvFiles s pp f dirs n
    (Q : outcome nat -> list Event -> Locals -> Prop) :
  (forall evs n',
      commands evs = [] -> consumed evs = [] ->
      n' = (n + length (writes evs))%nat ->
      (length (writes evs) <= length dirs)%nat ->
      Forall (flag_write pp f dirs) (writes evs) ->
      Q (Ret n') evs s) ->
  (forall evs e,
      commands evs = [] -> consumed evs = [] ->
      Forall (flag_write pp f dirs) (writes evs) ->
      Q (Throw e) evs s) ->
  runsL s (updateEnvFiles pp f dirs n) Q.
Proof.
  revert n Q. induction dirs as [|env rest IH]; intros n Q HR HT.
  - cbn [updateEnvFiles]. stepL. apply HR; cbn; try done; lia.
  - cbn [updateEnvFiles]. cbv zeta.
    change (path_join (path_join pp env) "values.yaml") with (valuesPathOf pp env).
    assert (forall pre,
      commands pre = [] -> consumed pre = [] -> writes pre = [] ->
      runsL s (addFeatureFlagToFile (valuesPathOf pp env) f)
        (fun r evs1 s1 =>
           match r with
           | Ret b =>
               runsL s1 (updateEnvFiles pp f rest (if b then S n else n))
                 (fun r' evs2 s2 => Q r' (pre ++ evs1 ++ evs2) s2)
           | Throw e => Q (Throw e) (pre ++ evs1) s1
           | Exit c => Q (Exit c) (pre ++ evs1) s1
           | Stalled => Q Stalled (pre ++ evs1) s1
           end)) as Hadd.
    { intros pre Hc Ha Hw. apply runsL_addFeatureFlagToFile.
      - intros m. apply IH.
        + intros evs n' Hc' Ha' -> Hlen HF. apply HR.
          * by rewrite !commands_app, Hc.
          * by rewrite !consumed_app, Ha.
          * by rewrite !writes_app, Hw.
          * rewrite !writes_app, Hw. cbn. lia.
          * rewrite !writes_app, Hw. cbn.
            eapply Forall_impl; [exact HF|]. intros pc. apply flag_write_weaken.
        + intros evs e Hc' Ha' HF. apply HT.
          * by rewrite !commands_app, Hc.
          * by rewrite !consumed_app, Ha.
          * rewrite !writes_app, Hw. cbn.
            eapply Forall_impl; [exact HF|]. intros pc. apply flag_write_weaken.
      - intros x m. apply IH.
        + intros evs n' Hc' Ha' -> Hlen HF. apply HR.
          * by rewrite !commands_app, Hc.
          * by rewrite !consumed_app, Ha.
          * rewrite !writes_app, Hw. cbn. lia.
          * rewrite !writes_app, Hw. cbn. lia.
          * rewrite !writes_app, Hw. cbn. constructor.
            -- exists env. split_and!; [by left|done|apply endsWith_app].
            -- eapply Forall_impl; [exact HF|]. intros pc. apply flag_write_weaken.
        + intros evs e Hc' Ha' HF. apply HT.
          * by rewrite !commands_app, Hc.
          * by rewrite !consumed_app, Ha.
          * rewrite !writes_app, Hw. cbn. constructor.
            -- exists env. split_and!; [by left|done|apply endsWith_app].
            -- eapply Forall_impl; [exact HF|]. intros pc. apply flag_write_weaken.
      - intros e. apply HT; rewrite ?app_nil_r; try done. rewrite Hw. constructor. }
    do 3 stepL. destruct (negb b) eqn:Hb; unfold when.
    + stepL.
      * apply runsL_bind.
        eapply runsL_conseq; [apply (Hadd [EvMkdir (path_join pp env)]); done|].
        intros [b'|e|c|] evs s' H; cbv beta iota; cbn [app] in *; done.
      * by apply HT.
    + stepL. apply runsL_bind. eapply runsL_conseq; [apply (Hadd []); done|].
      intros [b'|e|c|] evs s' H; cbv beta iota; cbn [app] in *; done.
Qed.

Ltac run_programL :=
  repeat first
    [ stepL
    | apply runsL_askEnvType;
      apply runsL_askEnvType_loop;
      [reflexivity|intros ? ? ? ? ? ?|intros ?]; use_input
    | apply runsL_updateEnvFiles; [intros ? ? ? ? ? ? ?|intros ? ? ? ? ?] ].

(** ** Runs of main *)

Lemma events_of_runsL {A} s (m : M A) Q w :
  runsL s m Q -> locals w = s -> Q (m w).1 (events_of m w) (locals (m w).2).
Proof.
  intros Hm Hw. destruct (Hm w Hw) as (evs & Htr & HQ).
  by rewrite (events_of_app m w evs Htr).
Qed.

Lemma main_ends s : runsL s main ends_post.
Proof.
  unfold main, main_try. run_programL; cbn [ends_post]; auto.
Qed.

(** X5: a run ends by returning, with exit status 0 or 1, or waiting for
    an answer that never comes.  No exception leaves main: whatever is
    thrown inside its try block is caught, and neither the catch block
    nor the finally block throws. *)
Theorem main_returns_exits_or_stalls (w : World) :
  (main w).1 = Ret tt \/ (main w).1 = Exit 0 \/ (main w).1 = Exit 1 \/
  (main w).1 = Stalled.
Proof.
  pose proof (events_of_runsL (locals w) main ends_post w (main_ends _) eq_refl)
    as H.
  destruct (main w).1 as [[]|e|c|]; cbn [ends_post] in H.
  - by left.
  - done.
  - destruct H as [-> | ->]; auto.
  - auto.
Qed.

Lemma cancelled_app a b : cancelled (a ++ b) = cancelled a || cancelled b.
Proof.
  induction a as [|[| | | | | |[]] a IH]; cbn [app cancelled orb]; done.
Qed.
Lemma cancelled_asks q ls : cancelled (map (EvAsk q) ls) = false.
Proof. by induction ls. Qed.

Lemma wob_asks q ls a rest :
  writes_on_branch a (map (EvAsk q) ls ++ rest) = writes_on_branch a rest.
Proof. by induction ls. Qed.
Lemma wob_asks_end q ls a : writes_on_branch a (map (EvAsk q) ls) = true.
Proof. by induction ls. Qed.
Lemma wob_armed seg rest :
  commands seg = [] ->
  writes_on_branch true (seg ++ rest) = writes_on_branch true rest.
Proof.
  induction seg as [|[| | | | | |] seg IH]; cbn [app commands writes_on_branch andb];
    auto; discriminate.
Qed.
Lemma wob_armed_end seg : commands seg = [] -> writes_on_branch true seg = true.
Proof.
  intros H. rewrite <- (app_nil_r seg). by rewrite wob_armed.
Qed.

(** Compute the observers of a trace, also the ones of this part. *)
Ltac observeL :=
  flatten_trace;
  repeat first
    [ progress cbn [commands writes consumed created pushed published failed
                    cancelled writes_on_branch andb orb
                    branches_created branches_pushed List.filter publishes app
                    length map snd fst]
    | rewrite commands_app | rewrite writes_app | rewrite consumed_app
    | rewrite failed_app | rewrite cancelled_app
    | rewrite commands_asks | rewrite writes_asks | rewrite consumed_asks
    | rewrite failed_asks | rewrite cancelled_asks
    | rewrite wob_asks | rewrite wob_asks_end
    | rewrite wob_armed by assumption | rewrite wob_armed_end by assumption
    | rewrite app_nil_r
    | match goal with
      | H : commands ?e = [] |- context [commands ?e] => rewrite H
      | H : consumed ?e = [] |- context [consumed ?e] => rewrite H
      | H : commands ?e = [] |- context [failed ?e] =>
          rewrite (failed_no_commands e H)
      end ].

Lemma main_exit_0 s : runsL s main exit_0_post.
Proof.
  unfold main, main_try. run_programL; unfold exit_0_post;
    (let H := fresh "Hexit" in intros H; try discriminate H);
    observeL; split_and!; try reflexivity; auto.
Qed.

(** X6: process.exit(0) is reached only through a cancellation (a declined
    confirmation or a declined missing project).  The run has then
    written no file and run no command but the capture commands and, on
    uncommitted changes, the stash push: the stash it pushed is not
    popped.  (A normal return, and an input that ends at a pending
    question, are other ways to end with status 0.) *)
Theorem exit_0_is_a_cancellation (w : World) :
  (main w).1 = Exit 0 ->
  cancelled (events_of main w) = true /\
  writes (events_of main w) = [] /\
  (commands (events_of main w) = [GitRevParseHead; GitStatusPorcelain] \/
   commands (events_of main w)
   = [GitRevParseHead; GitStatusPorcelain; GitStashPush]).
Proof.
  apply (events_of_runsL (locals w) main exit_0_post w (main_exit_0 _) eq_refl).
Qed.

Lemma exit_0_is_a_cancellation_witness :
  let w :=
    sampleWorld
      (projectNodes "svc-a" "prod"
         ++ [(valuesFile "svc-a" "prod", File ("A: 1" +:+ LF))])
      ["FEATURE_X"; "svc-a"; "prod"; "n"] [] in
  cancelled (events_of main w) = true /\
  writes (events_of main w) = [] /\
  (commands (events_of main w) = [GitRevParseHead; GitStatusPorcelain] \/
   commands (events_of main w)
   = [GitRevParseHead; GitStatusPorcelain; GitStashPush]).
Proof.
  apply (exit_0_is_a_cancellation
           (sampleWorld
              (projectNodes "svc-a" "prod"
                 ++ [(valuesFile "svc-a" "prod", File ("A: 1" +:+ LF))])
              ["FEATURE_X"; "svc-a"; "prod"; "n"] [])).
  vm_compute. reflexivity.
Defined.



Lemma dialogue_envs s pre l rest :
  s = AtContinueOrEnv \/ s = AtEnv ->
  forallb (fun x => negb (isEnvType (Js.trim x))) pre = true ->
  isEnvType (Js.trim l) = true ->
  dialogue s (map (pair AskEnvType) (pre ++ [l]) ++ rest) = dialogue AtConfirm rest.
Proof.
  intros Hs Hpre Hl. revert s Hs. induction pre as [|x pre IH]; intros s Hs.
  - destruct Hs as [-> | ->]; cbn; by rewrite Hl.
  - cbn in Hpre. apply andb_true_iff in Hpre as [Hx Hpre].
    apply negb_true_iff in Hx.
    destruct Hs as [-> | ->]; cbn; rewrite Hx; apply (IH Hpre); auto.
Qed.

Lemma dialogue_envs_stalled s pending :
  s = AtContinueOrEnv \/ s = AtEnv ->
  forallb (fun x => negb (isEnvType (Js.trim x))) pending = true ->
  dialogue s (map (pair AskEnvType) pending) = true.
Proof.
  intros Hs Hp. revert s Hs. induction pending as [|x pre IH]; intros s Hs; [done|].
  cbn in Hp. apply andb_true_iff in Hp as [Hx Hp]. apply negb_true_iff in Hx.
  destruct Hs as [-> | ->]; cbn; rewrite Hx; apply (IH Hp); auto.
Qed.

Lemma dialogue_envs_end s pre l :
  s = AtContinueOrEnv \/ s = AtEnv ->
  forallb (fun x => negb (isEnvType (Js.trim x))) pre = true ->
  isEnvType (Js.trim l) = true ->
  dialogue s (map (pair AskEnvType) (pre ++ [l])) = true.
Proof.
  intros. rewrite <- (app_nil_r (map _ _)). by rewrite dialogue_envs.
Qed.

Ltac dialogue_leaf :=
  unfold dialogue_post; observeL;
  repeat match goal with
         | H : negb _ = false |- _ => apply negb_false_iff in H
         | H : negb _ = true |- _ => apply negb_true_iff in H
         end;
  repeat first
    [ progress cbn [dialogue]
    | rewrite dialogue_envs by auto
    | rewrite dialogue_envs_stalled by auto
    | rewrite dialogue_envs_end by auto
    | match goal with
      | H : ?b = _ |- context [if ?b then _ else _] => rewrite H
      end ];
  try reflexivity.

Lemma main_dialogue s : runsL s main dialogue_post.
Proof.
  unfold main, main_try. run_programL; dialogue_leaf.
Qed.

(** X9: the questions of every run follow one protocol: the flag name,
    then the project, then at most once the question whether to continue,
    then the environment type, asked again after every answer that is not
    exactly prod or non-prod, then the confirmation; an empty flag or
    project name, a declined question and the confirmation each end the
    dialogue. *)
Theorem dialogue_follows_protocol (w : World) :
  dialogue AtFlag (consumed (events_of main w)) = true.
Proof.
  apply (events_of_runsL (locals w) main dialogue_post w (main_dialogue _) eq_refl).
Qed.

Ltac write_target_leaf :=
  unfold write_target_post; observeL;
  let pc := fresh "pc" in
  let Hin := fresh "Hin" in
  intros pc Hin;
  first
    [ by apply elem_of_nil in Hin
    | match goal with
      | HF : Forall (flag_write (_ +:+ Js.trim ?lp) (Js.trim ?lf)
                       (envDirsOf (Js.trim ?le))) _ |- _ =>
          exists lf, lp, le; split_and!;
          [find_answer|find_answer|find_answer|assumption
          |rewrite Forall_forall in HF; by apply HF]
      end ].

Lemma main_write_target s : runsL s main write_target_post.
Proof.
  unfold main, main_try. run_programL; write_target_leaf.
Qed.

(** X10: a run only ever writes values files of the project it was given,
    in the environments of the class it accepted (prod alone for the
    answer prod; main, ondemand, stage and preprod for the answer
    non-prod), and every content it writes ends with the line of the flag
    it was given. *)
Theorem writes_go_to_the_answered_targets (w : World) (p c : string) :
  (p, c) ∈ writes (events_of main w) ->
  exists lf lp le env,
    (AskFlagName, lf) ∈ consumed (events_of main w) /\
    (AskProject, lp) ∈ consumed (events_of main w) /\
    (AskEnvType, le) ∈ consumed (events_of main w) /\
    isEnvType (Js.trim le) = true /\
    env ∈ envDirsOf (Js.trim le) /\
    p = valuesPathOf ("v2/applications/" +:+ Js.trim lp) env /\
    Js.endsWith c (Js.trim lf +:+ ": true" +:+ LF) = true.
Proof.
  intros Hin.
  destruct (events_of_runsL (locals w) main write_target_post w
              (main_write_target _) eq_refl _ Hin)
    as (lf & lp & le & Hf & Hp & He & Hv & env & Henv & Hpath & Hc).
  exists lf, lp, le, env. done.
Qed.

Lemma writes_go_to_the_answered_targets_witness :
  exists lf lp le env,
    (AskFlagName, lf) ∈ consumed (events_of main w_success) /\
    (AskProject, lp) ∈ consumed (events_of main w_success) /\
    (AskEnvType, le) ∈ consumed (events_of main w_success) /\
    isEnvType (Js.trim le) = true /\
    env ∈ envDirsOf (Js.trim le) /\
    "v2/applications/svc-a/prod/values.yaml"
    = valuesPathOf ("v2/applications/" +:+ Js.trim lp) env /\
    Js.endsWith ("A: 1" +:+ LF +:+ "FEATURE_X: true" +:+ LF)
      (Js.trim lf +:+ ": true" +:+ LF) = true.
Proof.
  apply (writes_go_to_the_answered_targets w_success
           "v2/applications/svc-a/prod/values.yaml"
           ("A: 1" +:+ LF +:+ "FEATURE_X: true" +:+ LF)).
  vm_compute. apply list_elem_of_here.
Defined.

Ltac success_witness st :=
  exists st; do 4 eexists;
  split;
  [ unfold successCommands, restoreTarget; cbn [l_original];
    repeat match goal with
           | H : (Js.truthy ?x && _) = _ |- _ => rewrite H
           end;
    cbn [app]; reflexivity |];
  split_and!;
  [ find_answer | find_answer | find_answer
  | assumption
  | first [by left | by right]
  | match goal with
    | H : (_ =? 0)%nat = false |- _ => apply Nat.eqb_neq in H; lia
    end
  | reflexivity ].

Ltac success_leaf :=
  unfold success_post;
  (let H := fresh "Hret" in intros [? H]; try discriminate H);
  use_input; observeL; cbn [Nat.add] in *;
  repeat match goal with
         | |- context [bool_decide ?P] => destruct (bool_decide P)
         end;
  first [ solve [success_witness true] | solve [success_witness false] ].

Lemma main_success s : runsL s main (success_post (l_now s)).
Proof.
  destruct s as [sin ob sc t]. cbn [l_now].
  unfold main, main_try. run_programL; success_leaf.
Qed.


(** ** The branch a run restores *)

Lemma bind_ret_eq {A B} (m : M A) (k : A -> M B) w a w' :
  m w = (Ret a, w') -> bind m k w = k a w'.
Proof. unfold bind. by intros ->. Qed.
Lemma bind_throw_eq {A B} (m : M A) (k : A -> M B) w e w' :
  m w = (Throw e, w') -> bind m k w = (Throw e, w').
Proof. unfold bind. by intros ->. Qed.
Lemma bind_exit_eq {A B} (m : M A) (k : A -> M B) w c w' :
  m w = (Exit c, w') -> bind m k w = (Exit c, w').
Proof. unfold bind. by intros ->. Qed.

Lemma main_catch_exits e w a : (main_catch e w).1 <> Ret a.
Proof.
  unfold main_catch. erewrite bind_ret_eq by reflexivity.
  unfold bind. destruct (try_catch _ _ _) as [[[]|e'|c|] w']; discriminate.
Qed.

(** A run that returns has gone through its try block without a throw. *)
Lemma main_ret_inv w :
  (main w).1 = Ret tt ->
  exists w',
    main_try (set_stashCreated false (set_originalBranch None w)) = (Ret tt, w') /\
    (main w).2 = set_rl_open false w'.
Proof.
  unfold main. erewrite !bind_ret_eq by reflexivity.
  unfold try_finally, try_catch.
  destruct (main_try _) as [[[]|e|c|] w'] eqn:E.
  - intros _. by exists w'.
  - pose proof (main_catch_exits e w') as Hc.
    destruct (main_catch e w') as [[[]|e'|c|] w'']; cbn; try discriminate.
    by destruct (Hc tt).
  - discriminate.
  - discriminate.
Qed.

Lemma chdir_cases p w :
  chdir p w = (Ret tt, emit (EvChdir p) (set_cwd (resolve w p) w)) \/
  exists e, chdir p w = (Throw e, w).
Proof. unfold chdir. destruct (is_dir w p); [by left|right; by eexists]. Qed.

Lemma getCurrentBranch_cases w :
  exists w',
    (getCurrentBranch w = (Ret (Some (startBranch w)), w') \/
     getCurrentBranch w = (Exit 1, w')).
Proof.
  unfold getCurrentBranch, try_catch, bind, executeCommand, startBranch.
  destruct w as [dr cw f g sin t fl ob sc rl tr].
  destruct fl as [|[] fl]; cbn; eexists; eauto.
Qed.

(** After the capture nothing assigns the variable originalBranch. *)
Lemma main_try_original w w' :
  main_try w = (Ret tt, w') -> originalBranch w' = Some (startBranch w).
Proof.
  unfold main_try. erewrite bind_ret_eq by reflexivity.
  destruct (env_DEV_ROOT w) as [devRoot|];
    [|erewrite bind_ret_eq by reflexivity; discriminate].
  destruct (Js.truthy devRoot); cbn [negb];
    [|erewrite bind_ret_eq by reflexivity; discriminate].
  erewrite bind_ret_eq by reflexivity.
  destruct (is_file w _ || is_dir w _); cbn [negb];
    [|erewrite bind_ret_eq by reflexivity; discriminate].
  destruct (chdir_cases (path_join devRoot "k8s-template") w) as [Hc|[e Hc]];
    [|erewrite bind_throw_eq by exact Hc; discriminate].
  erewrite bind_ret_eq by exact Hc.
  set (w1 := emit _ (set_cwd _ w)).
  change (startBranch w) with (startBranch w1).
  destruct (getCurrentBranch_cases w1) as (w2 & [Hb|Hb]);
    [|erewrite bind_exit_eq by exact Hb; discriminate].
  erewrite bind_ret_eq by exact Hb.
  erewrite bind_ret_eq by reflexivity.
  generalize (startBranch w1). intros b.
  match goal with
  | |- ?rest ?w3 = _ -> _ =>
      assert (forall s, l_original s = Some b ->
                        runsL s rest (original_post (Some b))) as Hrest;
      [|intros Hrun;
        pose proof (events_of_runsL (locals w3) rest (original_post (Some b)) w3
                      (Hrest (locals w3) eq_refl) eq_refl) as Ho;
        rewrite Hrun in Ho; exact Ho]
  end.
  intros [sin ob sc t]. cbn [l_original]. intros ->.
  run_programL; reflexivity.
Qed.

Lemma main_original w :
  (main w).1 = Ret tt -> originalBranch (main w).2 = Some (startBranch w).
Proof.
  intros (w' & Htry & ->)%main_ret_inv.
  by apply main_try_original in Htry.
Qed.

(** X11: a run that returns normally has issued exactly the commands of
    [successCommands], all with success: the capture, the sync, one branch,
    one commit, one push of that branch to origin or ttranupgrade, one
    pull request whose body reports the number of files written (at least
    one), then the checkout of the branch the run started on, unless that
    is master or empty, and the stash pop exactly when the stash was
    pushed. *)
Theorem successful_run_commands (w : World) :
  (main w).1 = Ret tt ->
  exists stashed lf lp le remote,
    commands (events_of main w)
    = successCommands stashed (restoreTarget (Some (startBranch w)))
        (Js.trim lf) (Js.trim lp) (Js.trim le) remote
        (now w) (length (writes (events_of main w))) /\
    (AskFlagName, lf) ∈ consumed (events_of main w) /\
    (AskProject, lp) ∈ consumed (events_of main w) /\
    (AskEnvType, le) ∈ consumed (events_of main w) /\
    isEnvType (Js.trim le) = true /\
    (remote = "origin" \/ remote = "ttranupgrade") /\
    (0 < length (writes (events_of main w)))%nat /\
    failed (events_of main w) = [].
Proof.
  intros Hr.
  pose proof (events_of_runsL (locals w) main (success_post (now w)) w
                (main_success (locals w)) eq_refl) as H.
  unfold success_post in H. cbn [locals l_original] in H.
  rewrite (main_original w Hr) in H. apply H. by exists tt.
Qed.

Lemma successful_run_commands_witness :
  exists stashed lf lp le remote,
    commands (events_of main w_success)
    = successCommands stashed (restoreTarget (Some (startBranch w_success)))
        (Js.trim lf) (Js.trim lp) (Js.trim le) remote
        (now w_success) (length (writes (events_of main w_success))) /\
    (AskFlagName, lf) ∈ consumed (events_of main w_success) /\
    (AskProject, lp) ∈ consumed (events_of main w_success) /\
    (AskEnvType, le) ∈ consumed (events_of main w_success) /\
    isEnvType (Js.trim le) = true /\
    (remote = "origin" \/ remote = "ttranupgrade") /\
    (0 < length (writes (events_of main w_success)))%nat /\
    failed (events_of main w_success) = [].
Proof.
  apply (successful_run_commands w_success). vm_compute. reflexivity.
Defined.

(** ** The child of a bulk run *)

Lemma readline_cut_line a b :
  no_line_end a = true ->
  readline_cut (a +:+ LF +:+ b) = (a :: (readline_cut b).1, (readline_cut b).2).
Proof.
  induction a as [|c a IH]; intros Ha.
  - change (EmptyString +:+ LF +:+ b) with (String Js.nl b).
    cbn [readline_cut]. rewrite Ascii.eqb_refl.
    by destruct (readline_cut b).
  - cbn [no_line_end] in Ha.
    apply andb_true_iff in Ha as [[Hn Hc]%andb_true_iff Ha].
    apply negb_true_iff in Hn, Hc.
    rewrite append_cons. cbn [readline_cut]. rewrite Hn, Hc.
    by rewrite (IH Ha).
Qed.

Lemma piped_childInput operation featureFlagName project envType :
  no_line_end operation = true ->
  piped_answers (childInput operation featureFlagName project envType)
  = [operation].
Proof.
  intros Ho. unfold piped_answers, readline_lines, childInput.
  by rewrite (readline_cut_line _ _ Ho).
Qed.

Ltac one_answer_leaf :=
  unfold one_answer_post, created, published; observeL;
  split_and!;
  first
    [ reflexivity
    | by left
    | by right
    | right; split_and!; first [reflexivity | by left | by right] ].

Lemma main_one_answer a ob sc t :
  runsL (mkLocals [a] ob sc t) main (one_answer_post a).
Proof.
  unfold main, main_try. run_programL; one_answer_leaf.
Qed.

(** X13: a child of a bulk run gets one answer, the operation word, at
    its flag-name prompt; the flag name, the project, the environment
    class and the confirmation reach no prompt.  The child writes no
    file, creates no branch and publishes nothing.  It exits with status
    1, or it is left at its second question after the capture commands
    alone, a stash it pushed not popped, and then the parent receives
    status 0. *)
Theorem bulk_child_gets_one_answer (w : World)
    (operation featureFlagName project envType : string) :
  no_line_end operation = true ->
  let child := runChild (childInput operation featureFlagName project envType) in
  let evs := events_of child w in
  ((child w).1 = Exit 1 \/
   ((child w).1 = Stalled /\ childStatus (child w).1 = 0%Z /\
    consumed evs = [(AskFlagName, operation)] /\
    (commands evs = [GitRevParseHead; GitStatusPorcelain] \/
     commands evs = [GitRevParseHead; GitStatusPorcelain; GitStashPush]))) /\
  (consumed evs = [] \/ consumed evs = [(AskFlagName, operation)]) /\
  writes evs = [] /\ created evs = [] /\ published evs = [].
Proof.
  intros Ho child evs. subst child evs.
  unfold runChild. rewrite (piped_childInput _ _ _ _ Ho).
  set (w0 := set_rl_open true (set_stdin [operation] w)).
  change (events_of (fun w1 => main (set_rl_open true (set_stdin [operation] w1))) w)
    with (events_of main w0).
  destruct (events_of_runsL (locals w0) main (one_answer_post operation) w0
              (main_one_answer _ _ _ _) eq_refl)
    as (Hr & Hc & Hw & Hcr & Hpub).
  split_and!; try done.
  destruct Hr as [Hr|(Hr & Hcs & Hcmd)]; [by left|right].
  rewrite Hr. done.
Qed.

Lemma bulk_child_gets_one_answer_witness :
  let child := runChild (childInput "remove" "FEATURE_X" "svc-a" "non-prod") in
  let evs := events_of child w_bulk in
  ((child w_bulk).1 = Exit 1 \/
   ((child w_bulk).1 = Stalled /\ childStatus (child w_bulk).1 = 0%Z /\
    consumed evs = [(AskFlagName, "remove")] /\
    (commands evs = [GitRevParseHead; GitStatusPorcelain] \/
     commands evs = [GitRevParseHead; GitStatusPorcelain; GitStashPush]))) /\
  (consumed evs = [] \/ consumed evs = [(AskFlagName, "remove")]) /\
  writes evs = [] /\ created evs = [] /\ published evs = [].
Proof.
  apply (bulk_child_gets_one_answer w_bulk "remove" "FEATURE_X" "svc-a"
           "non-prod").
  reflexivity.
Defined.

(** ** The mutation loop *)

(** X14: the count the mutation loop returns is its start value plus the
    number of files it wrote, at most one per environment; the loop runs
    no external command and asks no question. *)
Theorem updateEnvFiles_counts_its_writes (w : World)
    (projectPath featureFlagName : string) (envDirs : list string)
    (n n' : nat) :
  (updateEnvFiles projectPath featureFlagName envDirs n w).1 = Ret n' ->
  let evs := events_of (updateEnvFiles projectPath featureFlagName envDirs n) w in
  n' = (n + length (writes evs))%nat /\
  (length (writes evs) <= length envDirs)%nat /\
  commands evs = [] /\ consumed evs = [].
Proof.
  intros Hr evs. subst evs.
  pose proof (events_of_runsL (locals w)
                (updateEnvFiles projectPath featureFlagName envDirs n)
                (fun r evs _ =>
                   forall k, r = Ret k ->
                     k = (n + length (writes evs))%nat /\
                     (length (writes evs) <= length envDirs)%nat /\
                     commands evs = [] /\ consumed evs = []) w) as H.
  apply H; [|done|done].
  apply runsL_updateEnvFiles.
  - intros evs k Hc Ha -> Hlen _ k' [= <-]. done.
  - intros evs e _ _ _ k' [=].
Qed.

Lemma updateEnvFiles_counts_its_writes_witness :
  let w := set_cwd "/dev/k8s-template" w_success in
  let evs :=
    events_of (updateEnvFiles "v2/applications/svc-a" "FEATURE_X" ["prod"] 0) w in
  1%nat = (0 + length (writes evs))%nat /\
  (length (writes evs) <= length ["prod"])%nat /\
  commands evs = [] /\ consumed evs = [].
Proof.
  apply (updateEnvFiles_counts_its_writes (set_cwd "/dev/k8s-template" w_success)
           "v2/applications/svc-a" "FEATURE_X" ["prod"] 0 1).
  vm_compute. reflexivity.
Defined.

(** ** The prompts *)

Lemma trimEnd_idem s : Js.trimEnd (Js.trimEnd s) = Js.trimEnd s.
Proof.
  induction s as [|c r IH]; [done|].
  cbn [Js.trimEnd]. destruct (Js.trimEnd r) as [|c' r'] eqn:E.
  - destruct (Js.is_ws c) eqn:Ec; [done|]. cbn [Js.trimEnd]. by rewrite Ec.
  - cbn [Js.trimEnd]. cbn [Js.trimEnd] in IH. by rewrite IH.
Qed.

Lemma trimStart_head s :
  Js.trimStart s = EmptyString \/
  exists c r, Js.trimStart s = String c r /\ Js.is_ws c = false.
Proof.
  induction s as [|c r IH]; [by left|].
  cbn [Js.trimStart]. destruct (Js.is_ws c) eqn:E; [done|]. right. eauto.
Qed.

Lemma trimStart_trim s : Js.trimStart (Js.trim s) = Js.trim s.
Proof.
  unfold Js.trim. destruct (trimStart_head s) as [->|(c & r & -> & Hc)]; [done|].
  cbn [Js.trimEnd]. rewrite Hc.
  destruct (Js.trimEnd r); cbn [Js.trimStart]; by rewrite Hc.
Qed.

(** X15: an answer is stripped on both sides: stripping it again, at the
    start or at the end, changes nothing. *)
Theorem askQuestion_answer_is_trimmed (q : Prompt) (w : World) (a : string) :
  (askQuestion q w).1 = Ret a ->
  Js.trimStart a = a /\ Js.trimEnd a = a /\ Js.trim a = a.
Proof.
  unfold askQuestion. destruct (stdin w) as [|l rest]; [done|].
  intros [= <-]. split_and!.
  - apply trimStart_trim.
  - apply trimEnd_idem.
  - unfold Js.trim at 1. rewrite trimStart_trim. apply trimEnd_idem.
Qed.

Lemma askQuestion_answer_is_trimmed_witness :
  Js.trimStart "FEATURE_X" = "FEATURE_X" /\
  Js.trimEnd "FEATURE_X" = "FEATURE_X" /\
  Js.trim "FEATURE_X" = "FEATURE_X".
Proof.
  apply (askQuestion_answer_is_trimmed AskFlagName
           (set_stdin ["  FEATURE_X  "] w_plain) "FEATURE_X").
  reflexivity.
Defined.

Lemma lower_ascii_y c :
  Js.lower_ascii c = "y"%char -> c = "y"%char \/ c = "Y"%char.
Proof.
  destruct c as [[] [] [] [] [] [] [] []]; vm_compute; intros H;
    first [discriminate H | by left | by right].
Qed.

Lemma lower_ascii_e c :
  Js.lower_ascii c = "e"%char -> c = "e"%char \/ c = "E"%char.
Proof.
  destruct c as [[] [] [] [] [] [] [] []]; vm_compute; intros H;
    first [discriminate H | by left | by right].
Qed.

Lemma lower_ascii_s c :
  Js.lower_ascii c = "s"%char -> c = "s"%char \/ c = "S"%char.
Proof.
  destruct c as [[] [] [] [] [] [] [] []]; vm_compute; intros H;
    first [discriminate H | by left | by right].
Qed.

(** X16: an answer counts as a confirmation exactly when it is y or yes
    in any mix of upper and lower case; every other answer, the empty one
    and an unrelated word alike, declines. *)
Theorem declined_iff (a : string) :
  declined a = false <-> a ∈ confirmations.
Proof.
  split.
  - unfold declined. intros H.
    apply andb_false_iff in H as [H|H]; apply negb_false_iff, String.eqb_eq in H.
    + destruct a as [|c1 [|c2 r]]; try discriminate H.
      injection H as H. apply lower_ascii_y in H as [-> | ->];
        unfold confirmations; set_solver.
    + destruct a as [|c1 [|c2 [|c3 [|c4 r]]]]; try discriminate H.
      injection H as H1 H2 H3.
      apply lower_ascii_y in H1 as [-> | ->];
        apply lower_ascii_e in H2 as [-> | ->];
        apply lower_ascii_s in H3 as [-> | ->];
        unfold confirmations; set_solver.
  - unfold confirmations. rewrite !elem_of_cons, elem_of_nil.
    intros H. repeat (destruct H as [-> | H]; [reflexivity|]). done.
Qed.

Lemma declined_iff_witness : declined "Yes" = false.
Proof.
  apply (declined_iff "Yes"). unfold confirmations.
  rewrite !elem_of_cons. tauto.
Defined.

(** X17: the environment question is asked again for as long as the
    answer, once stripped, is not exactly prod or non-prod; the first
    answer that is becomes the result, and the question is not asked
    again.  When no such answer ever comes the prompt never resolves. *)
Theorem askEnvType_repeats_until_valid (w : World) :
  (exists pre l post,
      stdin w = pre ++ l :: post /\
      forallb (fun x => negb (isEnvType (Js.trim x))) pre = true /\
      isEnvType (Js.trim l) = true /\
      (askEnvType w).1 = Ret (Js.trim l) /\
      events_of askEnvType w = map (EvAsk AskEnvType) (pre ++ [l])) \/
  (forallb (fun x => negb (isEnvType (Js.trim x))) (stdin w) = true /\
   (askEnvType w).1 = Stalled /\
   events_of askEnvType w = map (EvAsk AskEnvType) (stdin w)).
Proof.
  apply (events_of_runsL (locals w) askEnvType
           (fun r evs s' =>
              (exists pre l post,
                  stdin w = pre ++ l :: post /\
                  forallb (fun x => negb (isEnvType (Js.trim x))) pre = true /\
                  isEnvType (Js.trim l) = true /\
                  r = Ret (Js.trim l) /\
                  evs = map (EvAsk AskEnvType) (pre ++ [l])) \/
              (forallb (fun x => negb (isEnvType (Js.trim x))) (stdin w) = true /\
               r = Stalled /\
               evs = map (EvAsk AskEnvType) (stdin w))) w); [|done].
  apply runsL_askEnvType, runsL_askEnvType_loop; [done| |].
  - intros pre l post Hin Hpre Hl. left. exists pre, l, post. done.
  - intros Hall. right. done.
Qed.

(** ** The helpers built on executeCommand *)

Lemma split_nl_unlines rs :
  Forall (fun r => Js.includes r LF = false) rs ->
  Js.split_nl (unlines rs) = rs ++ [EmptyString].
Proof.
  induction 1 as [|r rs Hr _ IH]; [done|].
  cbn [unlines fold_right]. fold (unlines rs).
  rewrite split_nl_app_LF, IH, split_nl_one_line by done. done.
Qed.

(** X18: a command that fails inside getCurrentBranch,
    hasUncommittedChanges or the choice of the push remote ends the
    process with status 1: the fallback values of their catch blocks
    (null, false, origin) are never returned for that reason, and the
    current branch is never null. *)
Theorem helper_fallbacks_are_unreachable (w : World) :
  returns_or_exits getCurrentBranch (fun b => b <> None) w /\
  returns_or_exits hasUncommittedChanges (fun _ => True) w /\
  returns_or_exits choosePushRemote (fun _ => True) w.
Proof.
  unfold returns_or_exits, events_of, getCurrentBranch, hasUncommittedChanges,
    choosePushRemote, try_catch, bind, executeCommand.
  destruct w as [dr cw f g sin t fl ob sc rl tr].
  destruct fl as [|[] fl]; cbn;
    rewrite <- ?app_assoc, ?drop_app_length; cbn.
  all: split_and!.
  all: try (left; eexists; split_and!; [reflexivity|done..]).
  all: by right.
Qed.

Lemma configured_remote rs :
  "ttranupgrade" ∈ filter (fun r => Js.truthy (Js.trim r) = true) (rs ++ [EmptyString])
  <-> "ttranupgrade" ∈ rs.
Proof.
  rewrite list_elem_of_filter, elem_of_app, list_elem_of_singleton.
  split; [|by auto]. intros [_ [H|H]]; [done|discriminate H].
Qed.

(** X19: when git remote runs, the push goes to ttranupgrade if a remote
    of that name is configured and to origin otherwise. *)
Theorem choosePushRemote_prefers_ttranupgrade (w : World) :
  head (faults w) <> Some true ->
  Forall (fun r => Js.includes r LF = false) (remotes (git w)) ->
  (choosePushRemote w).1
  = Ret (if bool_decide ("ttranupgrade" ∈ remotes (git w))
         then "ttranupgrade" else "origin").
Proof.
  intros Hf Hr.
  unfold choosePushRemote, try_catch, bind, executeCommand.
  destruct w as [dr cw f g sin t fl ob sc rl tr]. cbn in Hf, Hr.
  destruct fl as [|[] fl]; [|done|]; cbn.
  all: rewrite (split_nl_unlines _ Hr); f_equal.
  all: erewrite bool_decide_ext; [reflexivity|apply configured_remote].
Qed.

Lemma choosePushRemote_prefers_ttranupgrade_witness :
  (choosePushRemote w_success).1
  = Ret (if bool_decide ("ttranupgrade" ∈ remotes (git w_success))
         then "ttranupgrade" else "origin").
Proof.
  apply (choosePushRemote_prefers_ttranupgrade w_success).
  - vm_compute. discriminate.
  - vm_compute. repeat constructor.
Defined.

(** ** The project listing *)

Lemma strip_prefix_spec pre s name :
  strip_prefix pre s = Some name <-> s = pre +:+ name.
Proof.
  revert s. induction pre as [|a pre IH]; intros s.
  - change (EmptyString +:+ name) with name. destruct s; cbn; split; congruence.
  - destruct s as [|b s]; cbn [strip_prefix]; rewrite ?append_cons.
    + split; discriminate.
    + destruct (Ascii.eqb a b) eqn:E.
      * apply Ascii.eqb_eq in E as ->. rewrite IH. split; congruence.
      * apply Ascii.eqb_neq in E. split; [discriminate|congruence].
Qed.

Lemma subdirectories_spec w d name :
  name ∈ subdirectories w d <->
  Js.truthy name = true /\ Js.includes name "/" = false /\
  fs w !! (resolve w d +:+ "/" +:+ name) = Some Dir.
Proof.
  unfold subdirectories. rewrite merge_sort_Permutation.
  rewrite list_elem_of_omap. split.
  - intros (x & Hx & Hn). apply list_elem_of_omap in Hx as ([k v] & Hkv & Hd).
    apply elem_of_map_to_list in Hkv. cbn in Hd.
    destruct v; [discriminate|]. injection Hd as <-.
    destruct (strip_prefix (resolve w d +:+ "/") k) as [n|] eqn:Hs; [|discriminate].
    destruct (Js.truthy n && negb (Js.includes n "/")) eqn:Hc; [|discriminate].
    injection Hn as ->. apply strip_prefix_spec in Hs as ->.
    apply andb_true_iff in Hc as [Ht Hi%negb_true_iff].
    by rewrite <- append_assoc.
  - intros (Ht & Hi & Hl). exists (resolve w d +:+ "/" +:+ name). split.
    + apply list_elem_of_omap. exists (resolve w d +:+ "/" +:+ name, Dir). split.
      * by apply elem_of_map_to_list.
      * done.
    + rewrite <- append_assoc.
      assert (strip_prefix ((resolve w d +:+ "/")) ((resolve w d +:+ "/") +:+ name)
              = Some name) as -> by by apply strip_prefix_spec.
      by rewrite Ht, Hi.
Qed.

(** X20: the project listing is empty when v2/applications does not
    exist, fails when it is a file, and otherwise is the sorted list of
    exactly the names of its direct sub-directories; the listing changes
    nothing. *)
Theorem getAvailableProjects_lists_subdirectories (w : World) :
  let dir := resolve w "v2/applications" in
  (getAvailableProjects w).2 = w /\
  match fs w !! dir with
  | None => (getAvailableProjects w).1 = Ret []
  | Some (File _) => exists e, (getAvailableProjects w).1 = Throw e
  | Some Dir =>
      exists l,
        (getAvailableProjects w).1 = Ret l /\
        Sorted String.le l /\
        forall name,
          name ∈ l <->
          (Js.truthy name = true /\ Js.includes name "/" = false /\
           fs w !! (dir +:+ "/" +:+ name) = Some Dir)
  end.
Proof.
  intros dir. subst dir.
  unfold getAvailableProjects, bind, existsSync, get, is_file, is_dir.
  destruct (fs w !! resolve w "v2/applications") as [[c|]|] eqn:E;
    cbn; cbn in E; rewrite ?E; cbn.
  - split; [done|]. by eexists.
  - split; [done|]. eexists. split; [done|]. split.
    + apply (Sorted_merge_sort String.le).
    + intros name. apply subdirectories_spec.
  - done.
Qed.

(** ** The stash *)

Lemma pos_asks q ls a rest :
  pops_own_stash a (map (EvAsk q) ls ++ rest) = pops_own_stash a rest.
Proof. by induction ls. Qed.
Lemma pos_asks_end q ls a : pops_own_stash a (map (EvAsk q) ls) = true.
Proof. by induction ls. Qed.
Lemma pos_seg seg a rest :
  commands seg = [] ->
  pops_own_stash a (seg ++ rest) = pops_own_stash a rest.
Proof.
  induction seg as [|[| | | | | |] seg IH]; cbn [app commands pops_own_stash];
    auto; discriminate.
Qed.
Lemma pos_seg_end seg a : commands seg = [] -> pops_own_stash a seg = true.
Proof.
  intros H. rewrite <- (app_nil_r seg). by rewrite pos_seg.
Qed.

Ltac observe_stash :=
  flatten_trace;
  repeat first
    [ progress cbn [pops_own_stash andb app]
    | rewrite pos_asks | rewrite pos_asks_end
    | rewrite pos_seg by assumption | rewrite pos_seg_end by assumption ].

Lemma main_own_stash s : runsL s main own_stash_post.
Proof.
  unfold main, main_try. run_programL; unfold own_stash_post; observe_stash;
    try reflexivity.
Qed.

(** X21: a run issues [git stash pop] only after a [git stash push] of
    its own has exited with status 0, and at most once for each such
    push. *)
Theorem stash_pop_follows_own_push (w : World) :
  pops_own_stash false (events_of main w) = true.
Proof.
  apply (events_of_runsL (locals w) main own_stash_post w (main_own_stash _) eq_refl).
Qed.

(** ** A whole bulk run *)

Lemma main_trace w : trace (main w).2 = trace w ++ events_of main w.
Proof.
  destruct (main_ends (locals w) w eq_refl) as (evs & Htr & _).
  by rewrite (events_of_app main w evs Htr).
Qed.

Lemma branches_created_app a b :
  branches_created (a ++ b) = branches_created a ++ branches_created b.
Proof.
  induction a as [|[] a IH]; cbn [app branches_created]; by rewrite ?IH.
Qed.

Lemma bulk_operation args operation featureFlagName envType projects :
  bulkArgs args = Some (operation, featureFlagName, envType, projects) ->
  operation = "add" \/ operation = "remove".
Proof.
  unfold bulkArgs. intros Hargs.
  destruct args as [|a0 [|a1 [|a2 ps]]]; try discriminate Hargs.
  destruct (bool_decide (a0 ∈ ["add"; "remove"])) eqn:Hm.
  - apply bool_decide_eq_true in Hm.
    destruct (Js.truthy a0 && Js.truthy a1 && Js.truthy a2
              && negb (Nat.eqb (length ps) 0)); cbn in Hargs;
      [|discriminate Hargs].
    destruct (bool_decide (a2 ∈ ["prod"; "non-prod"])); [|discriminate Hargs].
    injection Hargs as <- _ _ _.
    apply elem_of_cons in Hm as [->|Hm]; [by left|].
    apply list_elem_of_singleton in Hm as ->. by right.
  - rewrite andb_false_r in Hargs. discriminate Hargs.
Qed.

Lemma bulkLoop_children operation featureFlagName envType projects w :
  no_line_end operation = true ->
  exists evs,
    trace (bulkLoop operation featureFlagName envType projects w).2
    = trace w ++ evs /\
    writes evs = [] /\ created evs = [] /\ published evs = [] /\
    (forall q l, (q, l) ∈ consumed evs -> q = AskFlagName /\ l = operation) /\
    Forall (fun r => r = Exit 1 \/ (r = Stalled /\ childStatus r = 0%Z))
      (bulkLoop operation featureFlagName envType projects w).1.
Proof.
  intros Ho. revert w. induction projects as [|project rest IH]; intros w.
  - exists []. cbn. rewrite app_nil_r. split_and!; try done.
    intros q l H. by apply elem_of_nil in H.
  - cbn [bulkLoop].
    pose proof (main_one_answer operation (originalBranch w) (stashCreated w)
                  (now w)
                  (set_rl_open true (set_stdin [operation] w)) eq_refl)
      as (evs1 & Htr1 & Hr & Hc & Hw1 & Hcr1 & Hp1).
    unfold runChild. rewrite (piped_childInput _ _ _ _ Ho).
    destruct (main (set_rl_open true (set_stdin [operation] w))) as [r w'] eqn:Er.
    cbn [fst snd] in *.
    destruct (IH (afterChild w w')) as (evs2 & Htr2 & Hw2 & Hcr2 & Hp2 & Hc2 & Hrs).
    destruct (bulkLoop operation featureFlagName envType rest (afterChild w w'))
      as [rs w''] eqn:El.
    cbn [fst snd] in *.
    exists (evs1 ++ evs2). split_and!.
    + rewrite Htr2. change (trace (afterChild w w')) with (trace w').
      rewrite Htr1. cbn. by rewrite app_assoc.
    + by rewrite writes_app, Hw1, Hw2.
    + unfold created in *. by rewrite commands_app, branches_created_app, Hcr1, Hcr2.
    + unfold published in *. by rewrite commands_app, List.filter_app, Hp1, Hp2.
    + intros q l. rewrite consumed_app, elem_of_app. intros [H|H]; [|by apply Hc2].
      destruct Hc as [Hc|Hc]; rewrite Hc in H.
      * by apply elem_of_nil in H.
      * apply list_elem_of_singleton in H. by injection H as -> ->.
    + constructor; [|done].
      destruct Hr as [->|(-> & _)]; [by left|by right].
Qed.

(** X22: in a bulk run that passes validation no child writes a file,
    creates a branch, commits, pushes or opens a pull request, and the
    only answer any prompt gets is the operation word, at a flag-name
    prompt.  Every child exits with status 1 or is left at its second
    question; the parent then receives status 0, on which it reports the
    project as processed. *)
Theorem bulk_run_changes_nothing (w : World) (args : list string)
    (operation featureFlagName envType : string) (projects : list string) :
  bulkArgs args = Some (operation, featureFlagName, envType, projects) ->
  let run := bulkLoop operation featureFlagName envType projects w in
  let evs := drop (length (trace w)) (trace run.2) in
  writes evs = [] /\ created evs = [] /\ published evs = [] /\
  (forall q l, (q, l) ∈ consumed evs -> q = AskFlagName /\ l = operation) /\
  Forall (fun r => r = Exit 1 \/ (r = Stalled /\ childStatus r = 0%Z)) run.1.
Proof.
  intros Hargs run evs. subst run evs.
  assert (no_line_end operation = true) as Ho
    by (destruct (bulk_operation _ _ _ _ _ Hargs) as [-> | ->]; reflexivity).
  destruct (bulkLoop_children operation featureFlagName envType projects w Ho)
    as (evs & Htr & H).
  by rewrite Htr, drop_app_length.
Qed.

Lemma bulk_run_changes_nothing_witness :
  let run := bulkLoop "remove" "FEATURE_X" "non-prod" ["svc-a"] w_bulk in
  let evs := drop (length (trace w_bulk)) (trace run.2) in
  writes evs = [] /\ created evs = [] /\ published evs = [] /\
  (forall q l, (q, l) ∈ consumed evs -> q = AskFlagName /\ l = "remove") /\
  Forall (fun r => r = Exit 1 \/ (r = Stalled /\ childStatus r = 0%Z)) run.1.
Proof.
  apply (bulk_run_changes_nothing w_bulk
           ["remove"; "FEATURE_X"; "non-prod"; "svc-a"]
           "remove" "FEATURE_X" "non-prod" ["svc-a"]).
  reflexivity.
Defined.

(** ** The mutation loop on a project without files *)

Lemma resolve_join w a b :
  a <> EmptyString -> resolve w (path_join a b) = resolve w a +:+ "/" +:+ b.
Proof.
  intros Ha. destruct a as [|c r]; [done|].
  unfold resolve, path_join, Js.startsWith. rewrite append_cons.
  cbn [String.prefix]. destruct (ascii_dec "/" c).
  - rewrite !prefix_nil. by rewrite append_cons.
  - by rewrite !append_assoc.
Qed.

Lemma path_join_nonempty a b : path_join a b <> EmptyString.
Proof. unfold path_join. by destruct a. Qed.

Lemma lookup_mkdir_chain (m : gmap string Node) chain p c :
  foldr (fun d m => <[d := Dir]> m) m chain !! p = Some (File c) ->
  m !! p = Some (File c).
Proof.
  induction chain as [|d chain IH]; [done|]. cbn [foldr].
  destruct (decide (d = p)) as [->|Hne].
  - by rewrite lookup_insert_eq.
  - by rewrite lookup_insert_ne.
Qed.

Lemma mkdirSync_cases p w :
  (exists e, mkdirSync p w = (Throw e, w)) \/
  (exists m,
      mkdirSync p w = (Ret tt, emit (EvMkdir p) (set_fs m w)) /\
      forall q c, m !! q = Some (File c) -> fs w !! q = Some (File c)).
Proof.
  unfold mkdirSync.
  destruct (existsb _ _); [left; by eexists|].
  right. eexists. split; [done|]. intros q c. apply lookup_mkdir_chain.
Qed.

Lemma add_without_file p f w :
  is_file w p = false ->
  (exists e, addFeatureFlagToFile p f w = (Throw e, w)) \/
  addFeatureFlagToFile p f w = (Ret false, emit (EvLog (MsgFileNotFound p)) w).
Proof.
  intros Hf. unfold addFeatureFlagToFile.
  erewrite bind_ret_eq by reflexivity. cbv beta. rewrite Hf. cbn [orb].
  unfold is_file in Hf. unfold is_dir.
  destruct (fs w !! resolve w p) as [[c|]|] eqn:E; try discriminate Hf; cbn [negb].
  - left. exists "EISDIR". erewrite bind_throw_eq; [done|].
    unfold readFileSync. by rewrite E.
  - by right.
Qed.

Lemma updateEnvFiles_no_files projectPath featureFlagName root :
  projectPath <> EmptyString ->
  forall envDirs n w,
    resolve w projectPath = root ->
    no_file_below w root ->
    let run := updateEnvFiles projectPath featureFlagName envDirs n w in
    (run.1 = Ret n \/ exists e, run.1 = Throw e) /\
    exists evs, trace run.2 = trace w ++ evs /\ writes evs = [].
Proof.
  intros Hpp. induction envDirs as [|env rest IH]; intros n w Hroot Hno run;
    subst run.
  - cbn. split; [by left|]. exists []. by rewrite app_nil_r.
  - cbn [updateEnvFiles].
    erewrite bind_ret_eq by reflexivity. cbv beta.
    assert (forall w1 : World,
               cwd w1 = cwd w ->
               (forall q c, fs w1 !! q = Some (File c) -> fs w !! q = Some (File c)) ->
               forall evs0, trace w1 = trace w ++ evs0 -> writes evs0 = [] ->
               let run :=
                 (let* added :=
                    addFeatureFlagToFile
                      (path_join (path_join projectPath env) "values.yaml")
                      featureFlagName in
                  updateEnvFiles projectPath featureFlagName rest
                    (if added then S n else n)) w1 in
               (run.1 = Ret n \/ exists e, run.1 = Throw e) /\
               exists evs, trace run.2 = trace w ++ evs /\ writes evs = [])
      as Hrest.
    { intros w1 Hcwd Hfs evs0 Htr Hw0 run. subst run.
      assert (resolve w1 projectPath = root) as Hroot1.
      { rewrite <- Hroot. unfold resolve. by rewrite Hcwd. }
      assert (no_file_below w1 root) as Hno1.
      { intros q c Hq. apply (Hno q c). by apply Hfs. }
      assert (is_file w1 (path_join (path_join projectPath env) "values.yaml")
              = false) as Hfile.
      { unfold is_file.
        destruct (fs w1 !! _) as [[c|]|] eqn:E; try done.
        apply Hno1 in E.
        rewrite !resolve_join, Hroot1 in E by (done || apply path_join_nonempty).
        rewrite <- (append_assoc root "/" env), append_assoc, prefix_app_r in E.
        discriminate E. }
      destruct (add_without_file _ featureFlagName w1 Hfile) as [[e He]|He].
      - erewrite bind_throw_eq by exact He. split; [right; by eexists|].
        exists evs0. done.
      - erewrite bind_ret_eq by exact He. cbv beta iota.
        destruct (IH n (emit (EvLog
                   (MsgFileNotFound
                      (path_join (path_join projectPath env) "values.yaml"))) w1))
          as [Hr (evs & Hevs & Hw)]; [done|done|].
        split; [done|].
        exists (evs0 ++ [EvLog (MsgFileNotFound
                  (path_join (path_join projectPath env) "values.yaml"))] ++ evs).
        split.
        + rewrite Hevs. cbn. rewrite Htr. by rewrite <- !app_assoc.
        + rewrite !writes_app, Hw0, Hw. done. }
    destruct (is_file w (path_join projectPath env)
              || is_dir w (path_join projectPath env)); cbn [negb when].
    + erewrite bind_ret_eq by reflexivity.
      apply (Hrest w eq_refl (fun _ _ H => H) []); [by rewrite app_nil_r|done].
    + destruct (mkdirSync_cases (path_join projectPath env) w)
        as [[e He]|(m & Hm & Hfs)].
      * erewrite bind_throw_eq by exact He. split; [right; by eexists|].
        exists []. by rewrite app_nil_r.
      * erewrite bind_ret_eq by exact Hm.
        apply (Hrest (emit (EvMkdir (path_join projectPath env)) (set_fs m w))
                 eq_refl Hfs [EvMkdir (path_join projectPath env)]); done.
Qed.

(** X23: on a project with no regular file below its directory (a
    missing project the operator chose to continue with, for one) the
    mutation loop writes nothing and returns its count unchanged, unless a
    file-system call throws: the directories it creates stay without a
    values file. *)
Theorem updateEnvFiles_on_project_without_files (w : World)
    (projectPath featureFlagName : string) (envDirs : list string) (n : nat) :
  projectPath <> EmptyString ->
  no_file_below w (resolve w projectPath) ->
  let run := updateEnvFiles projectPath featureFlagName envDirs n w in
  (run.1 = Ret n \/ exists e, run.1 = Throw e) /\
  writes (events_of (updateEnvFiles projectPath featureFlagName envDirs n) w) = [].
Proof.
  intros Hpp Hno run. subst run.
  destruct (updateEnvFiles_no_files projectPath featureFlagName _ Hpp envDirs n w
              eq_refl Hno) as [Hr (evs & Htr & Hw)].
  split; [done|]. by rewrite (events_of_app _ w evs Htr).
Qed.

Lemma updateEnvFiles_on_project_without_files_witness :
  let w := set_cwd "/dev/k8s-template" w_success in
  let run := updateEnvFiles "v2/applications/svc" "FEATURE_X" ["prod"] 0 w in
  (run.1 = Ret 0%nat \/ exists e, run.1 = Throw e) /\
  writes (events_of (updateEnvFiles "v2/applications/svc" "FEATURE_X" ["prod"] 0)
            w) = [].
Proof.
  apply (updateEnvFiles_on_project_without_files
           (set_cwd "/dev/k8s-template" w_success)
           "v2/applications/svc" "FEATURE_X" ["prod"] 0).
  - discriminate.
  - intros p c Hp.
    assert (map_Forall
              (fun p n =>
                 match n with
                 | File _ =>
                     String.prefix
                       (resolve (set_cwd "/dev/k8s-template" w_success)
                          "v2/applications/svc" +:+ "/") p
                 | Dir => false
                 end = false)
              (fs (set_cwd "/dev/k8s-template" w_success))) as Hall.
    { apply (bool_decide_unpack _). vm_compute. exact I. }
    apply (Hall p (File c) Hp).
Defined.

(** ** The preflight checks *)

(** X24: when DEV_ROOT is unset or empty, or the k8s-template directory
    under it does not exist, the run ends with exit status 1 before it
    asks a question, runs a command or touches the disk: the input, the
    files and the working copy are as they were. *)
Theorem preflight_failure_touches_nothing (w : World) :
  match env_DEV_ROOT w with
  | None => True
  | Some devRoot =>
      Js.truthy devRoot = false \/
      (is_file w (path_join devRoot "k8s-template")
       || is_dir w (path_join devRoot "k8s-template")) = false
  end ->
  (main w).1 = Exit 1 /\
  commands (events_of main w) = [] /\
  consumed (events_of main w) = [] /\
  fs_ops (events_of main w) = [] /\
  stdin (main w).2 = stdin w /\
  fs (main w).2 = fs w /\
  git (main w).2 = git w /\
  cwd (main w).2 = cwd w.
Proof.
  intros H.
  unfold events_of, main, main_try, try_finally, try_catch, bind, modify, get,
    existsSync, console, process_exit.
  cbn [fst snd env_DEV_ROOT set_stashCreated set_originalBranch].
  destruct (env_DEV_ROOT w) as [devRoot|] eqn:E.
  - destruct H as [H|H].
    + rewrite H. cbn. rewrite drop_app_length. done.
    + destruct (Js.truthy devRoot); cbn [negb].
      * unfold get, is_file, is_dir, resolve in *. cbn in H |- *. rewrite H.
        cbn. rewrite drop_app_length. done.
      * cbn. rewrite drop_app_length. done.
  - cbn. rewrite drop_app_length. done.
Qed.

Lemma preflight_failure_touches_nothing_witness :
  let w := set_fs (list_to_map [("/dev", Dir)]) (sampleWorld [] ["FEATURE_X"] []) in
  (main w).1 = Exit 1 /\
  commands (events_of main w) = [] /\
  consumed (events_of main w) = [] /\
  fs_ops (events_of main w) = [] /\
  stdin (main w).2 = stdin w /\
  fs (main w).2 = fs w /\
  git (main w).2 = git w /\
  cwd (main w).2 = cwd w.
Proof.
  apply (preflight_failure_touches_nothing
           (set_fs (list_to_map [("/dev", Dir)]) (sampleWorld [] ["FEATURE_X"] []))).
  right. vm_compute. reflexivity.
Defined.
